(** * gt blocked: the aggregation pipeline of [internal/cmd/blocked.go]

    A shallow embedding of the [blocked] command of Gas Town: rig selection,
    the per-source query tasks and their filter pipeline, the ordering of
    sources and items, the summary counters and the title column of the
    human-readable presenter.

    Conventions.
    - Go strings are byte strings: [string] (a list of 8-bit [ascii]), with
      [String.length] for [len] and [String.ltb] for the bytewise [<].
    - A Go slice is a [list]; the nil slice is [[]] ([len] and [range] do not
      tell them apart).  [[]*beads.Issue] is a list of issues: nothing in
      this file writes through the pointers.
    - [issue.Priority] is a Go [int], embedded as [Z]; it is only compared.
      The counters of the summary are [nat]: each counts elements of slices
      that are live in memory at the same time, so no counter reaches the
      width of [int]. *)

From Stdlib Require Import ZArith Ascii String DecimalString Lia.
From stdpp Require Import base option list sorting strings gmap.

Local Open Scope list_scope.

(** ** Byte strings *)

Module strings.

(** [strings.HasPrefix(s, prefix)]. *)
Fixpoint HasPrefix (s prefix : string) {struct prefix} : bool :=
  match prefix, s with
  | EmptyString, _ => true
  | String _ _, EmptyString => false
  | String p prefix', String c s' =>
      if Ascii.eqb c p then HasPrefix s' prefix' else false
  end.

(** [strings.Contains(s, substr)]: [substr] occurs in [s] at some offset. *)
Fixpoint Contains (s substr : string) : bool :=
  HasPrefix s substr ||
  match s with
  | EmptyString => false
  | String _ s' => Contains s' substr
  end.

End strings.

(** ** Data model *)

(** The fields of [beads.Issue] that the command reads. *)
Record Issue := mkIssue {
  ID : string;
  Title : string;
  Priority : Z;
  BlockedBy : list string
}.

#[global] Instance Issue_eq_dec : EqDecision Issue.
Proof. solve_decision. Defined.

(** The ephemeral-item marker of [filterWispsByID]. *)
Definition wispMarker : string := "-wisp-".

(** [filterWispsByID]: the loop appends to [filtered] every issue whose ID
    does not contain the marker. *)
Definition filterWispsByID (issues : list Issue) : list Issue :=
  fold_left
    (fun filtered issue =>
       if negb (strings.Contains (ID issue) wispMarker)
       then filtered ++ [issue]
       else filtered)
    issues [].

(** ** Sources, summary and report *)

(** [BlockedSource]: the blocked items of one source (town or rig).
    [Error] is the empty string when the query succeeded. *)
Record BlockedSource := mkSource {
  Name : string;
  Issues : list Issue;
  Error : string
}.

#[global] Instance BlockedSource_eq_dec : EqDecision BlockedSource.
Proof. solve_decision. Defined.

(** [BlockedSummary]: the counters of the report. *)
Record BlockedSummary := mkSummary {
  Total : nat;
  BySource : gmap string nat;
  P0Count : nat;
  P1Count : nat;
  P2Count : nat;
  P3Count : nat;
  P4Count : nat
}.

(** [BlockedResult]: the aggregated result of [gt blocked]. *)
Record BlockedResult := mkResult {
  Sources : list BlockedSource;
  Summary : BlockedSummary;
  TownRoot : string
}.

(** A Go call returning [(value, error)]: the value when [err == nil],
    otherwise the text of [err.Error()]. *)
Inductive result (A : Type) : Type :=
| Ok (a : A)
| Err (msg : string).
Arguments Ok {A} a.
Arguments Err {A} msg.

Module rig.
(** What the command reads of a discovered [*rig.Rig]: its name and the
    value of its [BeadsPath()] method. *)
Record Rig := mkRig {
  Name : string;
  BeadsPath : string
}.
End rig.

#[global] Instance Rig_eq_dec : EqDecision rig.Rig.
Proof. solve_decision. Defined.

(** The two flags of the command, [--json] and [--rig]. *)
Record Flags := mkFlags {
  blockedJSON : bool;
  blockedRig : string
}.

Module config.
(** [config.RigsConfig]: the registry of rigs, keyed by rig name.  The
    entries are not read by the command. *)
Record RigsConfig (RigEntry : Type) := mkRigsConfig {
  Rigs : gmap string RigEntry
}.
Arguments mkRigsConfig {RigEntry} Rigs.
Arguments Rigs {RigEntry} r.
End config.

(** The collaborators outside the command: workspace resolution, rig
    configuration and discovery, and the bead stores, each as the function
    of its arguments that one invocation observes. *)
Record World (RigEntry : Type) := mkWorld {
  FindFromCwdOrError : result string;
  MayorRigsPath : string -> string;
  LoadRigsConfig : string -> result (config.RigsConfig RigEntry);
  DiscoverRigs : string -> config.RigsConfig RigEntry -> result (list rig.Rig);
  GetTownBeadsPath : string -> string;
  Blocked : string -> result (list Issue);
  getFormulaNames : string -> gset string;
  getWispIDs : string -> gset string
}.
Arguments FindFromCwdOrError {RigEntry} w.
Arguments MayorRigsPath {RigEntry} w _.
Arguments LoadRigsConfig {RigEntry} w _.
Arguments DiscoverRigs {RigEntry} w _ _.
Arguments GetTownBeadsPath {RigEntry} w _.
Arguments Blocked {RigEntry} w _.
Arguments getFormulaNames {RigEntry} w _.
Arguments getWispIDs {RigEntry} w _.

(** One goroutine of the fan-out. *)
Inductive Task :=
| TownTask
| RigTask (r : rig.Rig).

#[global] Instance Task_eq_dec : EqDecision Task.
Proof. solve_decision. Defined.

(** ** Scheduling

    Every goroutine appends its source to the shared slice inside one
    critical section, so the slice before sorting lists the tasks in the
    order in which they took the lock.  A schedule is a list of picks: each
    pick selects, among the tasks still pending, the one that appends next;
    when the picks run out the remaining tasks append in launch order. *)
Fixpoint completion_order {A} (picks : list nat) (pending : list A) : list A :=
  match picks with
  | [] => pending
  | k :: picks' =>
      match pending with
      | [] => []
      | _ :: _ =>
          let i := k mod length pending in
          match pending !! i with
          | Some x => x :: completion_order picks' (delete i pending)
          | None => pending
          end
      end
  end.

(** ** Rig selection (the [--rig] filter) *)

(** The loop keeps the first rig whose name equals the filter and stops. *)
Fixpoint firstNamed (name : string) (rigs : list rig.Rig) : list rig.Rig :=
  match rigs with
  | [] => []
  | r :: rigs' =>
      if String.eqb (rig.Name r) name then [r] else firstNamed name rigs'
  end.

Definition selectRigs (f : Flags) (rigs : list rig.Rig) : result (list rig.Rig) :=
  if negb (String.eqb (blockedRig f) "") then
    let filtered := firstNamed (blockedRig f) rigs in
    if Nat.eqb (length filtered) 0
    then Err ("rig not found: " +:+ blockedRig f)
    else Ok filtered
  else Ok rigs.

(** The goroutines that are started: the town task unless a rig filter is
    active, then one task per selected rig. *)
Definition launched (f : Flags) (rigs : list rig.Rig) : list Task :=
  (if String.eqb (blockedRig f) "" then [TownTask] else []) ++ map RigTask rigs.

(** ** Comparators *)

(** The [less] closure of the source sort. *)
Definition lessSource (a b : BlockedSource) : bool :=
  if String.eqb (Name a) "town" then true
  else if String.eqb (Name b) "town" then false
  else String.ltb (Name a) (Name b).

(** The [less] closure of the item sort. *)
Definition lessIssue (a b : Issue) : bool :=
  (Priority a <? Priority b)%Z.

(** ** Summary *)

Definition countPriority (s : BlockedSummary) (issue : Issue) : BlockedSummary :=
  match Priority issue with
  | 0%Z => mkSummary (Total s) (BySource s) (S (P0Count s)) (P1Count s)
             (P2Count s) (P3Count s) (P4Count s)
  | 1%Z => mkSummary (Total s) (BySource s) (P0Count s) (S (P1Count s))
             (P2Count s) (P3Count s) (P4Count s)
  | 2%Z => mkSummary (Total s) (BySource s) (P0Count s) (P1Count s)
             (S (P2Count s)) (P3Count s) (P4Count s)
  | 3%Z => mkSummary (Total s) (BySource s) (P0Count s) (P1Count s)
             (P2Count s) (S (P3Count s)) (P4Count s)
  | 4%Z => mkSummary (Total s) (BySource s) (P0Count s) (P1Count s)
             (P2Count s) (P3Count s) (S (P4Count s))
  | _ => s
  end.

(** One round of the outer loop over the sources. *)
Definition countSource (s : BlockedSummary) (src : BlockedSource) : BlockedSummary :=
  let count := length (Issues src) in
  let s := mkSummary (Total s + count) (<[Name src := count]> (BySource s))
             (P0Count s) (P1Count s) (P2Count s) (P3Count s) (P4Count s) in
  fold_left countPriority (Issues src) s.

Definition emptySummary : BlockedSummary := mkSummary 0 ∅ 0 0 0 0 0.

Definition summarize (sources : list BlockedSource) : BlockedSummary :=
  fold_left countSource sources emptySummary.

(** The test of the substring filter. *)
Definition keepsID (issue : Issue) : bool :=
  negb (strings.Contains (ID issue) wispMarker).

(** The number of issues of priority [k]. *)
Definition countPriorityIs (k : Z) (issues : list Issue) : nat :=
  length (List.filter (fun i => (Priority i =? k)%Z) issues).

(** The number of issues whose priority is outside the five buckets. *)
Definition countUnbucketed (issues : list Issue) : nat :=
  length (List.filter (fun i => (Priority i <? 0)%Z || (4 <? Priority i)%Z) issues).

(** All the items of a list of sources. *)
Definition allIssues (sources : list BlockedSource) : list Issue :=
  concat (map Issues sources).

(** The map that the loop leaves in [BySource]. *)
Definition bySourceOf (sources : list BlockedSource) (m : gmap string nat) : gmap string nat :=
  fold_left (fun m src => <[Name src := length (Issues src)]> m) sources m.



(** The number of strings that the presenter writes for a source: one for
    a source with an error, none for a source without items, and otherwise
    a header, one line per item and a blank line. *)
Definition sourceLineCount (src : BlockedSource) : nat :=
  if negb (String.eqb (Error src) "") then 1
  else if length (Issues src) =? 0 then 0
  else 2 + length (Issues src).

(** ** Sorting

    [sort.Slice(x, less)] belongs to Go's standard library.  Its [less]
    closure takes two indices of the slice being sorted and, in this
    command, only compares the elements found there; the embedding passes
    the comparison of elements.

    The command is embedded over an arbitrary routine [sort_Slice] with the
    documented contract of [sort.Slice]: the slice is rearranged, and it ends
    in ascending order whenever [less] is a consistent ordering of the
    elements.  The algorithm that the library runs is transcribed in
    [Module sort] further down. *)

(** [less] never orders two entries of [l] both ways. *)
Definition asymmetric_on {A} (less : A -> A -> bool) (l : list A) : Prop :=
  forall x y rest, l ≡ₚ x :: y :: rest ->
    less x y = true -> less y x = false.

(** The two transitivity requirements of [sort.Interface]. *)
Definition transitive_on {A} (less : A -> A -> bool) (l : list A) : Prop :=
  forall x y z, In x l -> In y l -> In z l ->
    less x y = true -> less y z = true -> less x z = true.

Definition incomparable_transitive_on {A} (less : A -> A -> bool) (l : list A) : Prop :=
  forall x y z, In x l -> In y l -> In z l ->
    less x y = false -> less y z = false -> less x z = false.

Definition consistent_on {A} (less : A -> A -> bool) (l : list A) : Prop :=
  asymmetric_on less l /\ transitive_on less l /\ incomparable_transitive_on less l.

(** No element must sort before one that precedes it. *)
Definition ascending {A} (less : A -> A -> bool) (l : list A) : Prop :=
  StronglySorted (fun x y => less y x = false) l.

(** The contract of a sorting routine, in two parts. *)
Definition rearranges (sort_Slice : forall A : Type, (A -> A -> bool) -> list A -> list A) : Prop :=
  forall (A : Type) (less : A -> A -> bool) (l : list A),
    sort_Slice A less l ≡ₚ l.

Definition orders (sort_Slice : forall A : Type, (A -> A -> bool) -> list A -> list A) : Prop :=
  forall (A : Type) (less : A -> A -> bool) (l : list A),
    consistent_on less l -> ascending less (sort_Slice A less l).

(** A sort is stable on [l] when, for every key, the elements with that key
    come out in the order they went in. *)
Definition stable_on {A K} `{EqDecision K} (key : A -> K) (l out : list A) : Prop :=
  forall k, List.filter (fun x => bool_decide (key x = k)) out
          = List.filter (fun x => bool_decide (key x = k)) l.

(** *** Insertion sort

    The element being inserted moves left past every neighbour that it must
    sort before.  [sink less x rp] works on the reversed sorted prefix. *)
Fixpoint sink {A} (less : A -> A -> bool) (x : A) (rp : list A) : list A :=
  match rp with
  | [] => [x]
  | y :: rp' => if less x y then y :: sink less x rp' else x :: rp
  end.

Definition insertionSort (A : Type) (less : A -> A -> bool) (l : list A) : list A :=
  rev (fold_left (fun rp x => sink less x rp) l []).

(** The same routine run on the reversed input: it sorts as well, and
    returns equal elements in the opposite order. *)
Definition insertionSortRev (A : Type) (less : A -> A -> bool) (l : list A) : list A :=
  insertionSort A less (rev l).

(** *** The library's algorithm

    Transcribed from [sort.Slice] and [pdqsort_func] of package [sort]
    (pattern-defeating quicksort, the algorithm since go1.19; xorshift
    constants as of go1.21).  Loops carry a fuel argument that bounds their
    number of rounds. *)
Module sort.
Section lessSwap.
Context {A : Type} (less : A -> A -> bool).

Definition Less (data : list A) (i j : nat) : bool :=
  match data !! i, data !! j with
  | Some x, Some y => less x y
  | _, _ => false
  end.

Definition Swap (data : list A) (i j : nat) : list A :=
  match data !! i, data !! j with
  | Some x, Some y => <[i:=y]> (<[j:=x]> data)
  | _, _ => data
  end.

(** [for j := i; j > a && Less(j, j-1); j-- { Swap(j, j-1) }] *)
Fixpoint insertDown (a j : nat) (data : list A) : list A :=
  match j with
  | 0 => data
  | S j' =>
      if (a <? j) && Less data j j'
      then insertDown a j' (Swap data j j')
      else data
  end.

(** [for i := ...; i < b; i++], with [n] rounds left. *)
Fixpoint insertionLoop (a i n : nat) (data : list A) : list A :=
  match n with
  | 0 => data
  | S n' => insertionLoop a (S i) n' (insertDown a i data)
  end.

Definition insertionSort_func (data : list A) (a b : nat) : list A :=
  insertionLoop a (a + 1) (b - (a + 1)) data.

Fixpoint siftDown_func (fuel : nat) (data : list A) (root hi first : nat) : list A :=
  match fuel with
  | 0 => data
  | S fuel' =>
      let child := 2 * root + 1 in
      if hi <=? child then data else
      let child :=
        if (child + 1 <? hi) && Less data (first + child) (first + child + 1)
        then child + 1 else child in
      if negb (Less data (first + root) (first + child)) then data else
      siftDown_func fuel' (Swap data (first + root) (first + child)) child hi first
  end.

(** [for i := (hi-1)/2; i >= 0; i-- { siftDown(data, i, hi, first) }],
    with [n = i + 1]. *)
Fixpoint buildHeap (n : nat) (data : list A) (hi first : nat) : list A :=
  match n with
  | 0 => data
  | S i => buildHeap i (siftDown_func hi data i hi first) hi first
  end.

(** [for i := hi-1; i >= 0; i-- { Swap(first, first+i); siftDown(data, lo, i, first) }] *)
Fixpoint popHeap (n : nat) (data : list A) (first : nat) : list A :=
  match n with
  | 0 => data
  | S i => popHeap i (siftDown_func i (Swap data first (first + i)) 0 i first) first
  end.

Definition heapSort_func (data : list A) (a b : nat) : list A :=
  let first := a in
  let hi := b - a in
  let data := buildHeap ((hi - 1) / 2 + 1) data hi first in
  popHeap hi data first.

(** The two scans of a partition round: [i] moves right while [stay],
    [j] moves left while [stay]. *)
Fixpoint scanUp (fuel : nat) (stay : nat -> bool) (i j : nat) : nat :=
  match fuel with
  | 0 => i
  | S fuel' => if (i <=? j) && stay i then scanUp fuel' stay (S i) j else i
  end.

Fixpoint scanDown (fuel : nat) (stay : nat -> bool) (i j : nat) : nat :=
  match fuel with
  | 0 => j
  | S fuel' => if (i <=? j) && stay j then scanDown fuel' stay i (j - 1) else j
  end.

(** The closing [for] loop of [partition_func]. *)
Fixpoint partitionLoop (fuel : nat) (data : list A) (a i j : nat) : list A * nat :=
  match fuel with
  | 0 => (data, j)
  | S fuel' =>
      let i := scanUp (length data) (fun i => Less data i a) i j in
      let j := scanDown (length data) (fun j => negb (Less data j a)) i j in
      if j <? i then (data, j)
      else partitionLoop fuel' (Swap data i j) a (i + 1) (j - 1)
  end.

Definition partition_func (data : list A) (a b pivot : nat) : list A * nat * bool :=
  let data := Swap data a pivot in
  let i := scanUp (length data) (fun i => Less data i a) (a + 1) (b - 1) in
  let j := scanDown (length data) (fun j => negb (Less data j a)) i (b - 1) in
  if j <? i then (Swap data j a, j, true)
  else
    let '(data, j) :=
      partitionLoop (length data) (Swap data i j) a (i + 1) (j - 1) in
    (Swap data j a, j, false).

Fixpoint partitionEqualLoop (fuel : nat) (data : list A) (a i j : nat) : list A * nat :=
  match fuel with
  | 0 => (data, i)
  | S fuel' =>
      let i := scanUp (length data) (fun i => negb (Less data a i)) i j in
      let j := scanDown (length data) (fun j => Less data a j) i j in
      if j <? i then (data, i)
      else partitionEqualLoop fuel' (Swap data i j) a (i + 1) (j - 1)
  end.

Definition partitionEqual_func (data : list A) (a b pivot : nat) : list A * nat :=
  let data := Swap data a pivot in
  partitionEqualLoop (S (length data)) data a (a + 1) (b - 1).

(** The two shifting loops of [partialInsertionSort_func]. *)
Fixpoint shiftLeft (j : nat) (data : list A) : list A :=
  match j with
  | 0 => data
  | S j' =>
      if negb (Less data j j') then data else shiftLeft j' (Swap data j j')
  end.

Fixpoint shiftRight (fuel j b : nat) (data : list A) : list A :=
  match fuel with
  | 0 => data
  | S fuel' =>
      if b <=? j then data
      else if negb (Less data j (j - 1)) then data
      else shiftRight fuel' (S j) b (Swap data j (j - 1))
  end.

Fixpoint partialInsertionLoop (steps : nat) (data : list A) (a b i : nat) : list A * bool :=
  match steps with
  | 0 => (data, false)
  | S steps' =>
      let i := scanUp (length data) (fun i => (i <? b) && negb (Less data i (i - 1))) i (b - 1) in
      if i =? b then (data, true)
      else if b - a <? 50 then (data, false)
      else
        let data := Swap data i (i - 1) in
        let data := if 2 <=? i - a then shiftLeft (i - 1) data else data in
        let data := if 2 <=? b - i then shiftRight (length data) (i + 1) b data else data in
        partialInsertionLoop steps' data a b i
  end.

Definition partialInsertionSort_func (data : list A) (a b : nat) : list A * bool :=
  partialInsertionLoop 5 data a b (a + 1).

(** [bits.Len(uint(n))]. *)
Definition bits_Len (n : nat) : nat := N.size_nat (N.of_nat n).

Definition uint64 (x : N) : N := N.land x (2 ^ 64 - 1)%N.

Definition xorshift_Next (r : N) : N :=
  let r := N.lxor r (uint64 (N.shiftl r 13)) in
  let r := N.lxor r (N.shiftr r 7) in
  N.lxor r (uint64 (N.shiftl r 17)).

Definition nextPowerOfTwo (length : nat) : N := N.shiftl 1 (N.of_nat (bits_Len length)).

Fixpoint breakLoop (n i : nat) (random modulus : N) (data : list A)
    (a idx len : nat) : list A :=
  match n with
  | 0 => data
  | S n' =>
      let random := xorshift_Next random in
      let other := N.to_nat (N.land random (modulus - 1)%N) in
      let other := if len <=? other then other - len else other in
      breakLoop n' (S i) random modulus (Swap data (idx - 1 + i) (a + other)) a idx len
  end.

Definition breakPatterns_func (data : list A) (a b : nat) : list A :=
  let len := b - a in
  if 8 <=? len then
    breakLoop 3 0 (N.of_nat len) (nextPowerOfTwo len) data a (a + (len / 4) * 2 - 1) len
  else data.

Inductive sortedHint := unknownHint | increasingHint | decreasingHint.

(** [order2_func]; the swap counter is threaded. *)
Definition order2_func (data : list A) (a b swaps : nat) : nat * nat * nat :=
  if Less data b a then (b, a, S swaps) else (a, b, swaps).

Definition median_func (data : list A) (a b c swaps : nat) : nat * nat :=
  let '(a, b, swaps) := order2_func data a b swaps in
  let '(b, c, swaps) := order2_func data b c swaps in
  let '(a, b, swaps) := order2_func data a b swaps in
  (b, swaps).

Definition medianAdjacent_func (data : list A) (a swaps : nat) : nat * nat :=
  median_func data (a - 1) a (a + 1) swaps.

Definition choosePivot_func (data : list A) (a b : nat) : nat * sortedHint :=
  let l := b - a in
  let swaps := 0 in
  let i := a + l / 4 * 1 in
  let j := a + l / 4 * 2 in
  let k := a + l / 4 * 3 in
  let '(j, swaps) :=
    if 8 <=? l then
      let '(i, j, k, swaps) :=
        if 50 <=? l then
          let '(i, swaps) := medianAdjacent_func data i swaps in
          let '(j, swaps) := medianAdjacent_func data j swaps in
          let '(k, swaps) := medianAdjacent_func data k swaps in
          (i, j, k, swaps)
        else (i, j, k, swaps) in
      median_func data i j k swaps
    else (j, swaps) in
  if swaps =? 0 then (j, increasingHint)
  else if swaps =? 12 then (j, decreasingHint)
  else (j, unknownHint).

(** [for i < j { Swap(i, j); i++; j-- }] *)
Fixpoint reverseLoop (fuel : nat) (data : list A) (i j : nat) : list A :=
  match fuel with
  | 0 => data
  | S fuel' =>
      if i <? j then reverseLoop fuel' (Swap data i j) (i + 1) (j - 1) else data
  end.

Definition reverseRange_func (data : list A) (a b : nat) : list A :=
  reverseLoop (length data) data a (b - 1).

Definition isIncreasing (h : sortedHint) : bool :=
  match h with increasingHint => true | _ => false end.

Definition isDecreasing (h : sortedHint) : bool :=
  match h with decreasingHint => true | _ => false end.

(** [pdqsort_func]: one round of its [for] loop per unit of fuel; the
    recursive call on the shorter side starts with both flags set. *)
Fixpoint pdqsort_func (fuel : nat) (data : list A) (a b limit : nat)
    (wasBalanced wasPartitioned : bool) : list A :=
  match fuel with
  | 0 => data
  | S fuel' =>
      let len := b - a in
      if len <=? 12 then insertionSort_func data a b
      else if limit =? 0 then heapSort_func data a b
      else
        let '(data, limit) :=
          if negb wasBalanced then (breakPatterns_func data a b, limit - 1)
          else (data, limit) in
        let '(pivot, hint) := choosePivot_func data a b in
        let '(data, pivot, hint) :=
          if isDecreasing hint
          then (reverseRange_func data a b, (b - 1) - (pivot - a), increasingHint)
          else (data, pivot, hint) in
        let '(data, sorted) :=
          if wasBalanced && wasPartitioned && isIncreasing hint
          then partialInsertionSort_func data a b
          else (data, false) in
        if sorted then data
        else if (0 <? a) && negb (Less data (a - 1) pivot) then
          let '(data, mid) := partitionEqual_func data a b pivot in
          pdqsort_func fuel' data mid b limit wasBalanced wasPartitioned
        else
          let '(data, mid, alreadyPartitioned) := partition_func data a b pivot in
          let leftLen := mid - a in
          let rightLen := b - mid in
          let balanceThreshold := len / 8 in
          if leftLen <? rightLen then
            let data := pdqsort_func fuel' data a mid limit true true in
            pdqsort_func fuel' data (mid + 1) b limit
              (balanceThreshold <=? leftLen) alreadyPartitioned
          else
            let data := pdqsort_func fuel' data (mid + 1) b limit true true in
            pdqsort_func fuel' data a mid limit
              (balanceThreshold <=? rightLen) alreadyPartitioned
  end.

End lessSwap.

(** [sort.Slice(x, less)]. *)
Definition Slice (A : Type) (less : A -> A -> bool) (x : list A) : list A :=
  let length := List.length x in
  let limit := bits_Len length in
  pdqsort_func less (S length) x 0 length limit true true.

End sort.

(** ** Rendering helpers *)

Module style.
(** The styles of package [style] that the presenter uses. *)
Inductive Style := Bold | Dim | Warning | Error.
End style.

Definition newline : string := String (ascii_of_nat 10) EmptyString.

(** The sign U+1F6AB, as the four bytes of its UTF-8 encoding. *)
Definition noEntrySign : string :=
  String (ascii_of_nat 240) (String (ascii_of_nat 159)
    (String (ascii_of_nat 154) (String (ascii_of_nat 171) EmptyString))).

(** The verb [%d] of [fmt]. *)
Definition fmt_d (n : Z) : string := NilZero.string_of_int (Z.to_int n).

(** The title column of an item line: [len] counts bytes, and [title[:57]]
    keeps the first 57 of them. *)
Definition shownTitle (title : string) : string :=
  if 60 <? String.length title
  then String.substring 0 57 title +:+ "..."
  else title.

(** The exit status that [Execute] gives the process. *)
Definition exitStatus (err : option string) : Z :=
  match err with
  | Some _ => 1
  | None => 0
  end.

(** What one invocation does: the store queries it issued, what it wrote to
    standard output, the report it built (if it got that far) and the error
    that [runBlocked] returned ([None] for [nil]). *)
Record Run := mkRun {
  queried : list Task;
  report : option BlockedResult;
  stdout : list string;
  err : option string
}.

(** ** A small town, for the examples

    A workspace at [/gt] with two rigs.  The town store holds three blocked
    issues, one of them ephemeral; the store of rig [alpha] holds three, one of them a known wisp; the
    store of rig [beta] cannot be read. *)

(** A filter that keeps every issue, and one that drops the issues whose ID
    is in the given set. *)
Definition keepAll (issues : list Issue) (names : gset string) : list Issue :=
  issues.

Definition dropMembers (issues : list Issue) (ids : gset string) : list Issue :=
  List.filter (fun i => bool_decide (ID i ∉ ids)) issues.

(** A renderer without styling and a stand-in for the JSON encoder. *)
Definition plainRender (s : style.Style) (text : string) : string := text.

Definition noJSON (result : BlockedResult) : string := EmptyString.

Definition alphaRig : rig.Rig := rig.mkRig "alpha" "/gt/alpha/.beads".
Definition betaRig : rig.Rig := rig.mkRig "beta" "/gt/beta/.beads".

Definition longTitle : string :=
  "Investigate why the refinery merge queue stalls when two convoys land".

Definition townIssues : list Issue :=
  [ mkIssue "hq-7" longTitle 2 ["hq-2"];
    mkIssue "hq-wisp-3" "patrol digest" 1 [];
    mkIssue "hq-2" "Rotate the mayor token" 0 [] ].

Definition alphaIssues : list Issue :=
  [ mkIssue "al-4" "Flaky witness patrol" 1 ["al-1"; "hq-2"];
    mkIssue "al-5" "heartbeat" 3 [];
    mkIssue "al-9" "Untriaged import" 7 [] ].

Definition exampleStores (stores : string -> result (list Issue)) : World unit :=
  mkWorld unit
    (Ok "/gt")
    (fun townRoot => townRoot +:+ "/mayor/rigs.json")
    (fun path => Err "no rigs.json")
    (fun townRoot config => Ok [betaRig; alphaRig])
    (fun townRoot => townRoot +:+ "/.beads")
    stores
    (fun beadsPath => ∅)
    (fun beadsPath => {["al-5"]}).

Definition exampleWorld : World unit :=
  exampleStores (fun beadsPath =>
    if String.eqb beadsPath "/gt/.beads" then Ok townIssues
    else if String.eqb beadsPath "/gt/alpha/.beads" then Ok alphaIssues
    else Err "store unreachable").

(** Thirteen blocked issues in the town store: twelve of priority 1 and a
    last one of priority 0. *)
Definition thirteenIssues : list Issue :=
  map (fun id => mkIssue id "waiting" 1 [])
    ["a"; "b"; "c"; "d"; "e"; "f"; "g"; "h"; "i"; "j"; "k"; "l"]
  ++ [mkIssue "m" "urgent" 0 []].

Definition thirteenWorld : World unit :=
  exampleStores (fun beadsPath =>
    if String.eqb beadsPath "/gt/.beads" then Ok thirteenIssues else Ok []).

Definition allSources : Flags := mkFlags false "".
Definition onlyAlpha : Flags := mkFlags false "alpha".
Definition onlyGamma : Flags := mkFlags false "gamma".

(** The same town when no store can be read. *)
Definition unreadableWorld : World unit :=
  exampleStores (fun beadsPath => Err "store unreachable").

(** A town whose only rig is itself named town. *)
Definition townRig : rig.Rig := rig.mkRig "town" "/gt/town/.beads".

Definition townRigWorld : World unit :=
  mkWorld unit
    (Ok "/gt")
    (fun townRoot => townRoot +:+ "/mayor/rigs.json")
    (fun path => Err "no rigs.json")
    (fun townRoot config => Ok [townRig])
    (fun townRoot => townRoot +:+ "/.beads")
    (fun beadsPath =>
       if String.eqb beadsPath "/gt/.beads" then Ok townIssues else Ok alphaIssues)
    (fun beadsPath => ∅)
    (fun beadsPath => ∅).

(** ** gt mq close

    The [mq close] command of the same package: two positional arguments,
    a rig and a merge request, closed through the rig's refinery manager. *)

Module mq.

(** What the command reads of the result of [CloseMR]. *)
Record MRResult := mkMRResult {
  ID : string;
  Branch : string;
  Worker : string;
  IssueID : string
}.

(** The flags [--reason] and the one behind [mqCloseCloseSource]. *)
Record Flags := mkFlags {
  mqCloseReason : string;
  mqCloseCloseSource : bool
}.

(** The collaborators: [getRefineryManager], of which the command keeps
    the manager and the error, and the manager's [CloseMR]. *)
Record World (Manager : Type) := mkWorld {
  getRefineryManager : string -> result Manager;
  CloseMR : Manager -> string -> string -> bool -> result MRResult
}.
Arguments getRefineryManager {Manager} w _.
Arguments CloseMR {Manager} w _ _ _ _.

(** How a call ends: with an index out of range, or by returning, after
    having printed [out], the error [err] ([None] for [nil]). *)
Inductive outcome :=
| Panicked
| Returned (out : list string) (err : option string).

(** The check mark U+2713, as the three bytes of its UTF-8 encoding. *)
Definition checkMark : string :=
  String (ascii_of_nat 226) (String (ascii_of_nat 156)
    (String (ascii_of_nat 147) EmptyString)).

(** The lines printed after a successful close. *)
Definition closedLines (Render : style.Style -> string -> string)
    (fl : Flags) (result : MRResult) : list string :=
  [ Render style.Bold checkMark +:+ " Closed: " +:+ ID result +:+ newline;
    "  Branch: " +:+ Branch result +:+ newline;
    "  Worker: " +:+ Worker result +:+ newline;
    "  Reason: " +:+ mqCloseReason fl +:+ newline ]
  ++ (if mqCloseCloseSource fl && negb (String.eqb (IssueID result) "")
      then ["  Issue:  " +:+ IssueID result +:+ " "
              +:+ Render style.Dim "(closed)" +:+ newline]
      else if negb (String.eqb (IssueID result) "")
      then ["  Issue:  " +:+ IssueID result +:+ " "
              +:+ Render style.Dim "(not closed)" +:+ newline]
      else []).

(** [runMQClose]: [args[0]] and [args[1]] are read without a check of the
    length. *)
Definition runMQClose {Manager} (Render : style.Style -> string -> string)
    (w : World Manager) (fl : Flags) (args : list string) : outcome :=
  match args !! 0, args !! 1 with
  | Some rigName, Some mrIDOrBranch =>
      match getRefineryManager w rigName with
      | Err e => Returned [] (Some e)
      | Ok mgr =>
          match CloseMR w mgr mrIDOrBranch (mqCloseReason fl) (mqCloseCloseSource fl) with
          | Err e => Returned [] (Some ("closing MR: " +:+ e))
          | Ok result => Returned (closedLines Render fl result) None
          end
      end
  | _, _ => Panicked
  end.

(** [cobra.ExactArgs(n)]: the error for a wrong number of arguments. *)
Definition ExactArgs (n : nat) (args : list string) : option string :=
  if length args =? n then None
  else Some ("accepts " +:+ fmt_d (Z.of_nat n) +:+ " arg(s), received "
               +:+ fmt_d (Z.of_nat (length args))).

(** [mqCloseCmd]: [Args] is validated before [RunE] is called. *)
Definition mqCloseCmd {Manager} (Render : style.Style -> string -> string)
    (w : World Manager) (fl : Flags) (args : list string) : outcome :=
  match ExactArgs 2 args with
  | Some e => Returned [] (Some e)
  | None => runMQClose Render w fl args
  end.

End mq.

(** A refinery for the examples: rig [greenplace] has a manager, and its
    merge request [gp-mr-abc123] closes issue [gp-42]. *)
Definition exampleRefinery : mq.World string :=
  mq.mkWorld string
    (fun rigName =>
       if String.eqb rigName "greenplace" then Ok "greenplace/refinery"
       else Err ("rig not found: " +:+ rigName))
    (fun mgr mr reason closeSource =>
       if String.eqb mr "gp-mr-abc123"
       then Ok (mq.mkMRResult "gp-mr-abc123" "polecat/nux" "nux" "gp-42")
       else Err ("merge request not found: " +:+ mr)).

(** ** The command *)

Section Command.

Context {RigEntry : Type}.

(** [sort.Slice]. *)
Variable sort_Slice : forall A : Type, (A -> A -> bool) -> list A -> list A.

(** The two filters of the pipeline that precede [filterWispsByID]; they
    are functions of package [cmd] defined outside blocked.go. *)
Variable filterFormulaScaffolds : list Issue -> gset string -> list Issue.
Variable filterWisps : list Issue -> gset string -> list Issue.

(** Terminal styling and the JSON encoder. *)
Variable Render : style.Style -> string -> string.
Variable json_Encode : BlockedResult -> string.

Variable w : World RigEntry.

(** The filter pipeline that a task applies to the issues of the store at
    [beadsPath]. *)
Definition filterPipeline (beadsPath : string) (issues : list Issue) : list Issue :=
  let formulaNames := getFormulaNames w beadsPath in
  let filtered := filterFormulaScaffolds issues formulaNames in
  let wispIDs := getWispIDs w beadsPath in
  let filtered := filterWisps filtered wispIDs in
  filterWispsByID filtered.

(** The source that a goroutine appends. *)
Definition querySource (name beadsPath : string) : BlockedSource :=
  match Blocked w beadsPath with
  | Err e => mkSource name [] e
  | Ok issues => mkSource name (filterPipeline beadsPath issues) ""
  end.

Definition runTask (townRoot : string) (t : Task) : BlockedSource :=
  match t with
  | TownTask => querySource "town" (GetTownBeadsPath w townRoot)
  | RigTask r => querySource (rig.Name r) (rig.BeadsPath r)
  end.

(** The second sort: the items of one source by priority. *)
Definition sortIssues (src : BlockedSource) : BlockedSource :=
  mkSource (Name src) (sort_Slice Issue lessIssue (Issues src)) (Error src).

(** From the slice that the goroutines filled to the report. *)
Definition aggregate (townRoot : string) (sources : list BlockedSource) : BlockedResult :=
  let sources := sort_Slice BlockedSource lessSource sources in
  let sources := map sortIssues sources in
  let summary := summarize sources in
  mkResult sources summary townRoot.

(** *** The human-readable presenter *)

Definition itemPrefix (issue : Issue) : string :=
  let priorityStr := "P" +:+ fmt_d (Priority issue) in
  let priorityStyled :=
    match Priority issue with
    | 0%Z => Render style.Error priorityStr
    | 1%Z => Render style.Error priorityStr
    | 2%Z => Render style.Warning priorityStr
    | _ => Render style.Dim priorityStr
    end in
  "  [" +:+ priorityStyled +:+ "] " +:+ Render style.Dim (ID issue) +:+ " ".

Definition itemSuffix (issue : Issue) : string :=
  let blockedByStr :=
    if 0 <? length (BlockedBy issue)
    then " " +:+ Render style.Dim
           ("(blocked by: " +:+ String.concat ", " (BlockedBy issue) +:+ ")")
    else "" in
  blockedByStr +:+ newline.

(** The line printed for one item. *)
Definition itemLine (issue : Issue) : string :=
  itemPrefix issue +:+ shownTitle (Title issue) +:+ itemSuffix issue.

(** What the loop over the sources prints for one source. *)
Definition sourceLines (src : BlockedSource) : list string :=
  if negb (String.eqb (Error src) "") then
    [Render style.Dim (Name src +:+ "/") +:+ " "
       +:+ Render style.Warning ("(error: " +:+ Error src +:+ ")") +:+ newline]
  else
    let count := length (Issues src) in
    if count =? 0 then []
    else
      let itemWord := if count =? 1 then "item" else "items" in
      [Render style.Bold (Name src +:+ "/") +:+ " ("
         +:+ fmt_d (Z.of_nat count) +:+ " " +:+ itemWord +:+ ")" +:+ newline]
      ++ map itemLine (Issues src)
      ++ [newline].

Definition bucketPart (count : nat) (label : string) : list string :=
  if 0 <? count then [fmt_d (Z.of_nat count) +:+ " " +:+ label] else [].

Definition totalsLine (s : BlockedSummary) : string :=
  let parts :=
    bucketPart (P0Count s) "P0" ++ bucketPart (P1Count s) "P1"
    ++ bucketPart (P2Count s) "P2" ++ bucketPart (P3Count s) "P3"
    ++ bucketPart (P4Count s) "P4" in
  if 0 <? length parts
  then "Total: " +:+ fmt_d (Z.of_nat (Total s)) +:+ " items blocked ("
         +:+ String.concat ", " parts +:+ ")" +:+ newline
  else "Total: " +:+ fmt_d (Z.of_nat (Total s)) +:+ " items blocked" +:+ newline.

(** [printBlockedHuman]: the strings written to standard output, one per
    print call; it always returns [nil]. *)
Definition printBlockedHuman (result : BlockedResult) : list string :=
  if Total (Summary result) =? 0 then ["No blocked work across town." +:+ newline]
  else
    [Render style.Bold noEntrySign +:+ " Blocked work across town:"
       +:+ newline +:+ newline]
    ++ concat (map sourceLines (Sources result))
    ++ [totalsLine (Summary result)].

(** *** [runBlocked] *)

Definition failed (msg : string) : Run := mkRun [] None [] (Some msg).

Definition runBlocked (f : Flags) (picks : list nat) : Run :=
  match FindFromCwdOrError w with
  | Err e => failed ("not in a Gas Town workspace: " +:+ e)
  | Ok townRoot =>
      let rigsConfigPath := MayorRigsPath w townRoot in
      let rigsConfig :=
        match LoadRigsConfig w rigsConfigPath with
        | Ok c => c
        | Err _ => config.mkRigsConfig ∅
        end in
      match DiscoverRigs w townRoot rigsConfig with
      | Err e => failed ("discovering rigs: " +:+ e)
      | Ok rigs =>
          match selectRigs f rigs with
          | Err e => failed e
          | Ok rigs =>
              let tasks := launched f rigs in
              let sources := map (runTask townRoot) (completion_order picks tasks) in
              let result := aggregate townRoot sources in
              mkRun tasks (Some result)
                (if blockedJSON f then [json_Encode result]
                 else printBlockedHuman result)
                None
          end
      end
  end.

(** ** Facts about byte strings *)

Lemma HasPrefix_spec s p :
  strings.HasPrefix s p = true <-> exists post, s = p +:+ post.
Proof.
  revert s; induction p as [|a p IH]; intros s; simpl.
  - split; [intros _; exists s; reflexivity | reflexivity].
  - destruct s as [|c s].
    + split; [discriminate | intros [post Hp]; discriminate].
    + destruct (Ascii.eqb_spec c a) as [->|Hne].
      * rewrite IH. split; intros [post Hp]; exists post.
        -- by rewrite Hp.
        -- by injection Hp.
      * split; [discriminate | intros [post Hp]; injection Hp; congruence].
Qed.

Lemma Contains_spec s sub :
  strings.Contains s sub = true <-> exists pre post, s = pre +:+ sub +:+ post.
Proof.
  induction s as [|c s IH]; simpl.
  - rewrite orb_false_r, HasPrefix_spec. split.
    + intros [post Hp]. by exists "", post.
    + intros [pre [post Hp]]. destruct pre; [by exists post | discriminate].
  - rewrite orb_true_iff, HasPrefix_spec, IH. split.
    + intros [[post Hp] | [pre [post Hp]]].
      * by exists "", post.
      * exists (String c pre), post. simpl. by rewrite Hp.
    + intros [pre [post Hp]]. destruct pre as [|c' pre]; simpl in Hp.
      * left. by exists post.
      * right. injection Hp as _ Hp. by exists pre, post.
Qed.

(** ** The substring filter *)

Lemma filterWispsByID_acc (issues acc : list Issue) :
  fold_left
    (fun filtered issue =>
       if negb (strings.Contains (ID issue) wispMarker)
       then filtered ++ [issue]
       else filtered)
    issues acc
  = acc ++ List.filter keepsID issues.
Proof.
  revert acc; induction issues as [|i issues IH]; intros acc; simpl.
  - by rewrite app_nil_r.
  - rewrite IH. unfold keepsID at 2.
    destruct (negb _); [by rewrite <- app_assoc | done].
Qed.

Lemma filterWispsByID_filter issues :
  filterWispsByID issues = List.filter keepsID issues.
Proof. unfold filterWispsByID. by rewrite filterWispsByID_acc. Qed.

Lemma keepsID_spec (x : Issue) :
  keepsID x = true <->
  ~ exists pre post, ID x = pre +:+ "-wisp-" +:+ post.
Proof.
  unfold keepsID. rewrite negb_true_iff, <- not_true_iff_false.
  by rewrite Contains_spec.
Qed.

(** C5. The substring filter is idempotent, and an issue is in its output
    exactly when it is in the input and its ID has no occurrence of the
    marker ["-wisp-"]. *)
Theorem filterWispsByID_idempotent (issues : list Issue) :
  filterWispsByID (filterWispsByID issues) = filterWispsByID issues /\
  forall x : Issue,
    In x (filterWispsByID issues) <->
    In x issues /\ ~ exists pre post, ID x = pre +:+ "-wisp-" +:+ post.
Proof.
  rewrite !filterWispsByID_filter. split.
  - induction issues as [|i issues IH]; simpl; [done|].
    destruct (keepsID i) eqn:Hk; simpl; [|done].
    by rewrite Hk, IH.
  - intros x. by rewrite filter_In, keepsID_spec.
Qed.

(** C9. The output of the substring filter is a subsequence of its input:
    its issues come from the input, in the input's relative order, none
    more often than in the input. *)
Theorem filterWispsByID_subsequence (issues : list Issue) :
  filterWispsByID issues `sublist_of` issues /\
  (forall x, In x (filterWispsByID issues) -> In x issues) /\
  (forall x, count_occ Issue_eq_dec (filterWispsByID issues) x
             <= count_occ Issue_eq_dec issues x).
Proof.
  rewrite filterWispsByID_filter. split_and!.
  - induction issues as [|i issues IH]; simpl; [constructor|].
    destruct (keepsID i); by constructor.
  - intros x. rewrite filter_In. tauto.
  - intros x. induction issues as [|i issues IH]; simpl; [done|].
    destruct (keepsID i); simpl; destruct (Issue_eq_dec i x); lia.
Qed.

(** ** The summary loop *)

Lemma countPriority_fields (s : BlockedSummary) (i : Issue) :
  let s' := countPriority s i in
  Total s' = Total s /\ BySource s' = BySource s /\
  P0Count s' = P0Count s + countPriorityIs 0 [i] /\
  P1Count s' = P1Count s + countPriorityIs 1 [i] /\
  P2Count s' = P2Count s + countPriorityIs 2 [i] /\
  P3Count s' = P3Count s + countPriorityIs 3 [i] /\
  P4Count s' = P4Count s + countPriorityIs 4 [i].
Proof.
  unfold countPriority, countPriorityIs. cbn [List.filter].
  destruct (Priority i) as [|[[p|p|]|[p|[p|p|]|]|]|p]; cbn; repeat split; lia.
Qed.

Lemma countPriorityIs_cons k i issues :
  countPriorityIs k (i :: issues) = countPriorityIs k [i] + countPriorityIs k issues.
Proof. unfold countPriorityIs. simpl. by destruct (_ =? _)%Z. Qed.

Lemma countPriorityIs_app k l1 l2 :
  countPriorityIs k (l1 ++ l2) = countPriorityIs k l1 + countPriorityIs k l2.
Proof.
  induction l1 as [|i l1 IH]; [done|].
  rewrite <- app_comm_cons, (countPriorityIs_cons k i l1), countPriorityIs_cons, IH. lia.
Qed.

Lemma fold_countPriority (issues : list Issue) (s : BlockedSummary) :
  let s' := fold_left countPriority issues s in
  Total s' = Total s /\ BySource s' = BySource s /\
  P0Count s' = P0Count s + countPriorityIs 0 issues /\
  P1Count s' = P1Count s + countPriorityIs 1 issues /\
  P2Count s' = P2Count s + countPriorityIs 2 issues /\
  P3Count s' = P3Count s + countPriorityIs 3 issues /\
  P4Count s' = P4Count s + countPriorityIs 4 issues.
Proof.
  revert s; induction issues as [|i issues IH]; intros s; simpl.
  - unfold countPriorityIs; simpl. repeat split; lia.
  - destruct (IH (countPriority s i)) as (-> & -> & -> & -> & -> & -> & ->).
    destruct (countPriority_fields s i) as (-> & -> & -> & -> & -> & -> & ->).
    rewrite !(countPriorityIs_cons _ i issues). repeat split; lia.
Qed.

Lemma fold_countSource (sources : list BlockedSource) (s : BlockedSummary) :
  let s' := fold_left countSource sources s in
  Total s' = Total s + length (allIssues sources) /\
  BySource s' = bySourceOf sources (BySource s) /\
  P0Count s' = P0Count s + countPriorityIs 0 (allIssues sources) /\
  P1Count s' = P1Count s + countPriorityIs 1 (allIssues sources) /\
  P2Count s' = P2Count s + countPriorityIs 2 (allIssues sources) /\
  P3Count s' = P3Count s + countPriorityIs 3 (allIssues sources) /\
  P4Count s' = P4Count s + countPriorityIs 4 (allIssues sources).
Proof.
  revert s; induction sources as [|src sources IH]; intros s.
  - unfold allIssues, countPriorityIs; simpl. repeat split; lia.
  - cbn [fold_left]. destruct (IH (countSource s src)) as (-> & -> & -> & -> & -> & -> & ->).
    unfold countSource.
    destruct (fold_countPriority (Issues src)
      (mkSummary (Total s + length (Issues src))
         (<[Name src:=length (Issues src)]> (BySource s))
         (P0Count s) (P1Count s) (P2Count s) (P3Count s) (P4Count s)))
      as (-> & -> & -> & -> & -> & -> & ->).
    unfold allIssues; cbn [map concat Total BySource P0Count P1Count P2Count P3Count P4Count bySourceOf fold_left].
    rewrite !countPriorityIs_app, length_app. repeat split; lia.
Qed.

Lemma summarize_fields (sources : list BlockedSource) :
  let s := summarize sources in
  Total s = length (allIssues sources) /\
  BySource s = bySourceOf sources ∅ /\
  P0Count s = countPriorityIs 0 (allIssues sources) /\
  P1Count s = countPriorityIs 1 (allIssues sources) /\
  P2Count s = countPriorityIs 2 (allIssues sources) /\
  P3Count s = countPriorityIs 3 (allIssues sources) /\
  P4Count s = countPriorityIs 4 (allIssues sources).
Proof.
  unfold summarize.
  destruct (fold_countSource sources emptySummary) as (-> & -> & -> & -> & -> & -> & ->).
  done.
Qed.

Lemma length_allIssues (sources : list BlockedSource) :
  length (allIssues sources) = sum_list (map (fun s => length (Issues s)) sources).
Proof.
  unfold allIssues. induction sources as [|s sources IH]; simpl; [done|].
  by rewrite length_app, IH.
Qed.

Lemma bucket_partition (issues : list Issue) :
  length issues =
    countPriorityIs 0 issues + countPriorityIs 1 issues + countPriorityIs 2 issues
    + countPriorityIs 3 issues + countPriorityIs 4 issues + countUnbucketed issues.
Proof.
  unfold countPriorityIs, countUnbucketed.
  induction issues as [|i issues IH]; simpl; [done|].
  repeat match goal with
         | |- context [(?a =? ?b)%Z] => destruct (Z.eqb_spec a b)
         | |- context [(?a <? ?b)%Z] => destruct (Z.ltb_spec a b)
         end; simpl; lia.
Qed.


Lemma bySourceOf_lookup_notin (sources : list BlockedSource) (m : gmap string nat) n :
  ~ In n (map Name sources) -> bySourceOf sources m !! n = m !! n.
Proof.
  revert m; induction sources as [|s sources IH]; intros m Hn; simpl; [done|].
  simpl in Hn. rewrite IH by tauto. apply lookup_insert_ne. tauto.
Qed.

Lemma bySourceOf_lookup (sources : list BlockedSource) (m : gmap string nat) s :
  NoDup (map Name sources) -> In s sources ->
  bySourceOf sources m !! Name s = Some (length (Issues s)).
Proof.
  revert m; induction sources as [|s' sources IH]; intros m Hnd Hin; [done|].
  simpl in Hnd. apply NoDup_cons in Hnd as [Hni Hnd]. destruct Hin as [->|Hin]; simpl.
  - rewrite bySourceOf_lookup_notin; [apply lookup_insert_eq|].
    by rewrite <- list_elem_of_In.
  - by apply IH.
Qed.

(** ** The bytewise order of strings *)


Lemma ascii_compare_refl (a : ascii) : Ascii.compare a a = Eq.
Proof. unfold Ascii.compare. apply N.compare_refl. Qed.

Lemma string_compare_refl (s : string) : String.compare s s = Eq.
Proof. induction s as [|c s IH]; simpl; [done|]. by rewrite ascii_compare_refl. Qed.


Lemma ltb_irrefl (s : string) : String.ltb s s = false.
Proof.
  unfold String.ltb. by rewrite string_compare_refl.
Qed.

Lemma ltb_asym (s1 s2 : string) :
  String.ltb s1 s2 = true -> String.ltb s2 s1 = false.
Proof.
  unfold String.ltb. rewrite (String.compare_antisym s1 s2).
  by destruct (String.compare s2 s1).
Qed.




(** ** Schedules *)

Lemma completion_order_perm {A} (picks : list nat) (pending : list A) :
  completion_order picks pending ≡ₚ pending.
Proof.
  revert pending; induction picks as [|k picks IH]; intros pending; simpl; [done|].
  destruct pending as [|p pending]; [done|].
  destruct (_ !! _) as [x|] eqn:Hx; [|done].
  rewrite IH. symmetry. by apply delete_Permutation.
Qed.

(** Every order of completion is the outcome of some schedule. *)
Lemma completion_order_complete {A} (pending order : list A) :
  pending ≡ₚ order -> exists picks, completion_order picks pending = order.
Proof.
  revert pending; induction order as [|x order IH]; intros pending Hp.
  - apply Permutation_nil_r in Hp as ->. by exists [].
  - assert (x ∈ pending) as Hin by (rewrite Hp; left).
    apply list_elem_of_lookup in Hin as [i Hi].
    destruct (IH (delete i pending)) as [picks Hpicks].
    { apply (Permutation_cons_inv (a:=x)).
      by rewrite <- (delete_Permutation pending i x Hi). }
    exists (i :: picks). simpl.
    destruct pending as [|p pending]; [done|].
    assert (i < length (p :: pending)) as Hlt by by eapply lookup_lt_Some.
    rewrite Nat.mod_small by done. by rewrite Hi, Hpicks.
Qed.

(** ** Insertion sort meets the contract *)

Lemma sink_perm {A} (less : A -> A -> bool) (x : A) (rp : list A) :
  sink less x rp ≡ₚ x :: rp.
Proof.
  induction rp as [|y rp IH]; simpl; [done|].
  destruct (less x y); [|done]. rewrite IH. apply perm_swap.
Qed.

Lemma sink_sorted {A} (less : A -> A -> bool) (x : A) (rp : list A) :
  StronglySorted (fun a b => less a b = false) rp ->
  (forall y, y ∈ rp -> less x y = true -> less y x = false) ->
  (forall y z, y ∈ rp -> z ∈ rp ->
     less x y = false -> less y z = false -> less x z = false) ->
  StronglySorted (fun a b => less a b = false) (sink less x rp).
Proof.
  induction rp as [|y rp IH]; intros Hs Hasym Htr; simpl.
  - repeat constructor.
  - apply StronglySorted_cons in Hs as [Hy Hs]. rewrite Forall_forall in Hy.
    destruct (less x y) eqn:Hxy.
    + apply StronglySorted_cons. split.
      * apply Forall_forall. intros e He. rewrite sink_perm in He.
        apply elem_of_cons in He as [->|He]; [|by apply Hy].
        apply Hasym; [left|done].
      * apply IH; [done| |].
        -- intros z Hz. apply Hasym. by right.
        -- intros z z' Hz Hz'. apply Htr; by right.
    + apply StronglySorted_cons. split.
      * apply Forall_forall. intros e He.
        apply elem_of_cons in He as [->|He]; [done|].
        apply (Htr y e); [left|by right|done|by apply Hy].
      * apply StronglySorted_cons. by rewrite Forall_forall.
Qed.

Lemma insertion_fold {A} (less : A -> A -> bool) (todo done rp : list A) :
  consistent_on less (done ++ todo) ->
  rp ≡ₚ done ->
  StronglySorted (fun a b => less a b = false) rp ->
  let rp' := fold_left (fun rp x => sink less x rp) todo rp in
  rp' ≡ₚ done ++ todo /\ StronglySorted (fun a b => less a b = false) rp'.
Proof.
  revert done rp; induction todo as [|x todo IH]; intros done rp Hc Hp Hs; simpl.
  - by rewrite app_nil_r.
  - destruct (IH (done ++ [x]) (sink less x rp)) as [Hp' Hs'].
    + by rewrite <- app_assoc.
    + rewrite sink_perm, Hp. apply Permutation_cons_append.
    + destruct Hc as (Hasym & _ & Hinc). apply sink_sorted; [done| |].
      * intros y Hy. rewrite Hp in Hy.
        apply list_elem_of_split in Hy as (d1 & d2 & ->).
        apply (Hasym x y (d1 ++ d2 ++ todo)).
        solve_Permutation.
      * intros y z Hy Hz. rewrite Hp in Hy, Hz.
        apply Hinc; rewrite <- list_elem_of_In; set_solver.
    + by rewrite <- app_assoc in Hp'.
Qed.

Lemma StronglySorted_rev {A} (R : relation A) (l : list A) :
  StronglySorted R l -> StronglySorted (flip R) (rev l).
Proof.
  induction 1 as [|x l Hs IH Hx]; simpl; [constructor|].
  apply StronglySorted_app_2; [|done|repeat constructor].
  intros x1 x2 H1 H2. apply list_elem_of_singleton in H2 as ->.
  rewrite Forall_forall in Hx. apply Hx.
  by rewrite list_elem_of_In, <- in_rev, <- list_elem_of_In in H1.
Qed.

Lemma fold_sink_perm {A} (less : A -> A -> bool) (todo rp : list A) :
  fold_left (fun rp x => sink less x rp) todo rp ≡ₚ rp ++ todo.
Proof.
  revert rp; induction todo as [|x todo IH]; intros rp; simpl.
  - by rewrite app_nil_r.
  - rewrite IH, sink_perm. simpl. apply Permutation_middle.
Qed.

Lemma insertionSort_rearranges : rearranges insertionSort.
Proof.
  intros A less l. unfold insertionSort.
  by rewrite <- Permutation_rev, fold_sink_perm.
Qed.

Lemma insertionSort_orders : orders insertionSort.
Proof.
  intros A less l Hc. unfold insertionSort, ascending.
  destruct (insertion_fold less l [] []) as [_ Hs]; [done|done|constructor|].
  by apply (StronglySorted_rev (fun a b => less a b = false)).
Qed.

Lemma consistent_on_perm {A} (less : A -> A -> bool) (l l' : list A) :
  l ≡ₚ l' -> consistent_on less l -> consistent_on less l'.
Proof.
  intros Hp (Hasym & Htr & Hinc). split_and!.
  - intros x y rest Hl. apply (Hasym x y rest). by rewrite Hp.
  - intros x y z Hx Hy Hz.
    apply Htr; (eapply Permutation_in; [symmetry; exact Hp | done]).
  - intros x y z Hx Hy Hz.
    apply Hinc; (eapply Permutation_in; [symmetry; exact Hp | done]).
Qed.

Lemma insertionSortRev_rearranges : rearranges insertionSortRev.
Proof.
  intros A less l. unfold insertionSortRev.
  etrans; [apply insertionSort_rearranges | symmetry; apply Permutation_rev].
Qed.

Lemma insertionSortRev_orders : orders insertionSortRev.
Proof.
  intros A less l Hc. apply insertionSort_orders.
  apply (consistent_on_perm less l); [apply Permutation_rev | done].
Qed.

(** ** The two comparators *)

Lemma lessIssue_consistent (l : list Issue) : consistent_on lessIssue l.
Proof.
  unfold lessIssue. split_and!.
  - intros x y rest _. rewrite Z.ltb_lt, Z.ltb_ge. lia.
  - intros x y z _ _ _. rewrite !Z.ltb_lt. lia.
  - intros x y z _ _ _. rewrite !Z.ltb_ge. lia.
Qed.

Lemma lessSource_town (a b : BlockedSource) :
  Name a = "town" -> lessSource a b = true.
Proof. unfold lessSource. intros ->. done. Qed.

Lemma lessSource_other (a b : BlockedSource) :
  Name a <> "town" ->
  lessSource a b = if String.eqb (Name b) "town" then false
                   else String.ltb (Name a) (Name b).
Proof.
  unfold lessSource. intros Ha.
  by destruct (String.eqb_spec (Name a) "town").
Qed.






(** ** The shape of a run *)

(** A run that built a report went through every stage of [runBlocked]. *)
Lemma runBlocked_report (f : Flags) (picks : list nat) (r : BlockedResult) :
  report (runBlocked f picks) = Some r ->
  exists townRoot rigs0 rigs,
    FindFromCwdOrError w = Ok townRoot /\
    DiscoverRigs w townRoot
      (match LoadRigsConfig w (MayorRigsPath w townRoot) with
       | Ok c => c
       | Err _ => config.mkRigsConfig ∅
       end) = Ok rigs0 /\
    selectRigs f rigs0 = Ok rigs /\
    queried (runBlocked f picks) = launched f rigs /\
    err (runBlocked f picks) = None /\
    r = aggregate townRoot
          (map (runTask townRoot) (completion_order picks (launched f rigs))).
Proof.
  unfold runBlocked. intros Hr.
  destruct (FindFromCwdOrError w) as [townRoot|e] eqn:Hfind; [|done].
  destruct (DiscoverRigs w townRoot _) as [rigs0|e] eqn:Hrigs; [|done].
  destruct (selectRigs f rigs0) as [rigs|e] eqn:Hsel; [|done].
  simpl in Hr. injection Hr as <-.
  exists townRoot, rigs0, rigs. split_and!; done.
Qed.

Lemma querySource_fields (name beadsPath : string) :
  Name (querySource name beadsPath) = name /\
  (Error (querySource name beadsPath) <> "" -> Issues (querySource name beadsPath) = []).
Proof.
  unfold querySource. destruct (Blocked w beadsPath); simpl; (split; [done|]).
  - intros He; by destruct He.
  - done.
Qed.

Lemma runTask_error (townRoot : string) (t : Task) :
  Error (runTask townRoot t) <> "" -> Issues (runTask townRoot t) = [].
Proof. destruct t; apply querySource_fields. Qed.

Section Rearranged.

Hypothesis sort_Slice_rearranges : rearranges sort_Slice.

Lemma report_sources_perm (f : Flags) (picks : list nat) (r : BlockedResult) :
  report (runBlocked f picks) = Some r ->
  Sources r ≡ₚ
    map (fun t => sortIssues (runTask (TownRoot r) t)) (queried (runBlocked f picks)).
Proof.
  intros Hr.
  destruct (runBlocked_report f picks r Hr)
    as (townRoot & rigs0 & rigs & _ & _ & _ & -> & _ & ->).
  simpl. rewrite (sort_Slice_rearranges BlockedSource lessSource _).
  by rewrite completion_order_perm, map_map.
Qed.

Lemma report_source_origin (f : Flags) (picks : list nat) (r : BlockedResult)
    (s : BlockedSource) :
  report (runBlocked f picks) = Some r -> In s (Sources r) ->
  exists t, In t (queried (runBlocked f picks)) /\
            s = sortIssues (runTask (TownRoot r) t).
Proof.
  intros Hr Hs. apply list_elem_of_In in Hs.
  rewrite (report_sources_perm f picks r Hr) in Hs.
  apply list_elem_of_In, in_map_iff in Hs as (t & <- & Ht). by exists t.
Qed.

Lemma sortIssues_error (src : BlockedSource) :
  Issues src = [] -> Issues (sortIssues src) = [].
Proof.
  intros Hi. simpl. rewrite Hi.
  apply Permutation_nil_r, (sort_Slice_rearranges Issue lessIssue []).
Qed.

Lemma report_error_no_issues (f : Flags) (picks : list nat) (r : BlockedResult)
    (s : BlockedSource) :
  report (runBlocked f picks) = Some r ->
  In s (Sources r) -> Error s <> "" -> Issues s = [].
Proof.
  intros Hr Hs He.
  destruct (report_source_origin f picks r s Hr Hs) as (t & _ & ->).
  rewrite sortIssues_error; [done|]. by apply runTask_error.
Qed.

Lemma report_summary (f : Flags) (picks : list nat) (r : BlockedResult) :
  report (runBlocked f picks) = Some r -> Summary r = summarize (Sources r).
Proof.
  intros Hr.
  destruct (runBlocked_report f picks r Hr)
    as (townRoot & rigs0 & rigs & _ & _ & _ & _ & _ & Heq).
  by rewrite Heq.
Qed.

(** C1. The total of the summary is the sum of the lengths of the issue
    lists of the sources without an error; a source with an error has no
    issues and adds nothing. *)
Theorem total_counts_sources_without_error
    (f : Flags) (picks : list nat) (r : BlockedResult) :
  report (runBlocked f picks) = Some r ->
  Total (Summary r)
    = sum_list (map (fun s => length (Issues s))
                  (List.filter (fun s => String.eqb (Error s) "") (Sources r))) /\
  forall s, In s (Sources r) -> Error s <> "" -> length (Issues s) = 0.
Proof.
  intros Hr.
  assert (forall s, In s (Sources r) -> Error s <> "" -> length (Issues s) = 0) as Hz.
  { intros s Hs He. by rewrite (report_error_no_issues f picks r s Hr Hs He). }
  split; [|done].
  rewrite (report_summary f picks r Hr).
  destruct (summarize_fields (Sources r)) as (-> & _).
  rewrite length_allIssues. clear Hr.
  induction (Sources r) as [|s l IH]; simpl; [done|].
  rewrite IH by (intros s' Hs'; apply Hz; by right).
  destruct (String.eqb_spec (Error s) ""); simpl; [done|].
  rewrite (Hz s); [done|by left|done].
Qed.


End Rearranged.

(** ** The order of sources and items *)


Lemma StronglySorted_weaken {A} (R R' : relation A) (l : list A) :
  (forall a b, R a b -> R' a b) -> StronglySorted R l -> StronglySorted R' l.
Proof.
  intros HR. induction 1 as [|x l Hs IH Hx]; constructor; [done|].
  eapply Forall_impl; [exact Hx|]. intros b. apply HR.
Qed.


Section Sorted.

Hypothesis sort_Slice_rearranges : rearranges sort_Slice.
Hypothesis sort_Slice_orders : orders sort_Slice.

(** C3, as amended. In every source of the report the items are in
    non-decreasing order of priority, and they are the items that the
    filter pipeline left for that source, rearranged. *)
Theorem items_sorted_by_priority
    (f : Flags) (picks : list nat) (r : BlockedResult) (s : BlockedSource) :
  report (runBlocked f picks) = Some r -> In s (Sources r) ->
  StronglySorted (fun a b => (Priority a <= Priority b)%Z) (Issues s) /\
  exists t, In t (queried (runBlocked f picks)) /\
            Name s = Name (runTask (TownRoot r) t) /\
            Issues s ≡ₚ Issues (runTask (TownRoot r) t).
Proof.
  intros Hr Hs.
  destruct (report_source_origin sort_Slice_rearranges f picks r s Hr Hs)
    as (t & Ht & ->).
  split.
  - simpl. eapply StronglySorted_weaken;
      [|apply (sort_Slice_orders Issue lessIssue), lessIssue_consistent].
    intros a b. unfold lessIssue. rewrite Z.ltb_ge. lia.
  - exists t. split_and!; [done|done|].
    apply (sort_Slice_rearranges Issue lessIssue).
Qed.



End Sorted.

(** ** Rig selection and the town task *)

Lemma firstNamed_none (name : string) (rigs : list rig.Rig) :
  (forall rg, In rg rigs -> rig.Name rg <> name) -> firstNamed name rigs = [].
Proof.
  induction rigs as [|r rigs IH]; intros Hn; simpl; [done|].
  destruct (String.eqb_spec (rig.Name r) name) as [He|_].
  - destruct (Hn r); [by left|done].
  - apply IH. intros rg Hrg. apply Hn. by right.
Qed.

Lemma firstNamed_some (name : string) (rigs : list rig.Rig) :
  firstNamed name rigs = [] \/
  exists rg, firstNamed name rigs = [rg] /\ In rg rigs /\ rig.Name rg = name.
Proof.
  induction rigs as [|r rigs IH]; simpl; [by left|].
  destruct (String.eqb_spec (rig.Name r) name) as [He|_].
  - right. exists r. split_and!; [done|by left|done].
  - destruct IH as [IH|(rg & Hf & Hin & Hn)]; [by left|].
    right. exists rg. split_and!; [done|by right|done].
Qed.

Lemma launched_town (f : Flags) (rigs : list rig.Rig) :
  In TownTask (launched f rigs) <-> blockedRig f = "".
Proof.
  unfold launched. rewrite in_app_iff, in_map_iff.
  destruct (String.eqb_spec (blockedRig f) "") as [He|Hne]; simpl.
  - split; [done|by left; left].
  - split; [|done]. intros [[]|(r & Hr & _)]. discriminate.
Qed.

(** C6. With a rig filter that names no discovered rig the command fails
    with rig not found: it has queried no store, printed nothing and built
    no report, and the exit status is not zero. With a filter that names
    exactly one discovered rig, that rig alone is selected and queried. *)
Theorem rig_filter_selects_or_fails
    (f : Flags) (picks : list nat) (townRoot : string) (rigs : list rig.Rig) :
  FindFromCwdOrError w = Ok townRoot ->
  DiscoverRigs w townRoot
    (match LoadRigsConfig w (MayorRigsPath w townRoot) with
     | Ok c => c
     | Err _ => config.mkRigsConfig ∅
     end) = Ok rigs ->
  blockedRig f <> "" ->
  ((forall rg, In rg rigs -> rig.Name rg <> blockedRig f) ->
   runBlocked f picks
     = mkRun [] None [] (Some ("rig not found: " +:+ blockedRig f)) /\
   exitStatus (err (runBlocked f picks)) <> 0%Z) /\
  (forall rg, In rg rigs -> rig.Name rg = blockedRig f ->
     (forall rg', In rg' rigs -> rig.Name rg' = blockedRig f -> rg' = rg) ->
     selectRigs f rigs = Ok [rg] /\
     queried (runBlocked f picks) = [RigTask rg]).
Proof.
  intros Hfind Hrigs Hf.
  assert (String.eqb (blockedRig f) "" = false) as Hfb by by apply String.eqb_neq.
  split.
  - intros Hnone.
    assert (runBlocked f picks
            = mkRun [] None [] (Some ("rig not found: " +:+ blockedRig f))) as Hrun.
    { unfold runBlocked. rewrite Hfind, Hrigs. unfold selectRigs.
      by rewrite Hfb, (firstNamed_none _ _ Hnone). }
    split; [done|]. by rewrite Hrun.
  - intros rg Hin Hname Huniq.
    assert (selectRigs f rigs = Ok [rg]) as Hsel.
    { unfold selectRigs. rewrite Hfb. simpl.
      destruct (firstNamed_some (blockedRig f) rigs) as [Hnil|(rg' & Hf' & Hin' & Hn')].
      - exfalso. clear -Hnil Hin Hname.
        induction rigs as [|r rigs IH]; [done|]. simpl in Hnil.
        destruct (String.eqb_spec (rig.Name r) (blockedRig f)) as [|Hne]; [done|].
        destruct Hin as [->|Hin]; [done|by apply IH].
      - rewrite Hf'. simpl. by rewrite (Huniq rg' Hin' Hn'). }
    split; [done|].
    unfold runBlocked. rewrite Hfind, Hrigs, Hsel. simpl.
    unfold launched. by rewrite Hfb.
Qed.

Section Fanout.

Hypothesis sort_Slice_rearranges : rearranges sort_Slice.

(** C7. The town task is among the queries exactly when the rig filter is
    empty; the sources of the report are the sources of the queried
    tasks; with a rig filter the only query is that of the named rig. *)
Theorem town_queried_iff_no_rig_filter
    (f : Flags) (picks : list nat) (r : BlockedResult) :
  report (runBlocked f picks) = Some r ->
  (In TownTask (queried (runBlocked f picks)) <-> blockedRig f = "") /\
  Sources r ≡ₚ
    map (fun t => sortIssues (runTask (TownRoot r) t)) (queried (runBlocked f picks)) /\
  (blockedRig f <> "" ->
   exists rg, queried (runBlocked f picks) = [RigTask rg] /\
              rig.Name rg = blockedRig f /\
              Sources r = [sortIssues (runTask (TownRoot r) (RigTask rg))]).
Proof.
  intros Hr.
  pose proof (report_sources_perm sort_Slice_rearranges f picks r Hr) as Hperm.
  destruct (runBlocked_report f picks r Hr)
    as (townRoot & rigs0 & rigs & _ & _ & Hsel & Hq & _ & _).
  rewrite Hq in *. split_and!; [apply launched_town|done|].
  intros Hf.
  assert (String.eqb (blockedRig f) "" = false) as Hfb by by apply String.eqb_neq.
  unfold selectRigs in Hsel. rewrite Hfb in Hsel. simpl in Hsel.
  destruct (firstNamed_some (blockedRig f) rigs0) as [Hnil|(rg & Hf' & _ & Hn)].
  - by rewrite Hnil in Hsel.
  - rewrite Hf' in Hsel. simpl in Hsel. injection Hsel as <-.
    exists rg. unfold launched in *. rewrite Hfb in *. simpl in *.
    split_and!; [done|done|]. by apply Permutation_singleton_r.
Qed.

End Fanout.

(** ** The title column *)

Lemma length_append (s1 s2 : string) :
  String.length (s1 +:+ s2) = String.length s1 + String.length s2.
Proof. induction s1 as [|c s1 IH]; simpl; [done|]. by rewrite IH. Qed.

Lemma substring_prefix (n : nat) (s : string) :
  n <= String.length s ->
  exists rest, s = String.substring 0 n s +:+ rest /\
               String.length (String.substring 0 n s) = n.
Proof.
  revert s; induction n as [|n IH]; intros s Hn.
  - exists s. by destruct s.
  - destruct s as [|c s]; simpl in Hn; [lia|].
    destruct (IH s) as (rest & Hs & Hl); [lia|].
    exists rest. split; [|simpl; by f_equal].
    change (String c s = String c (String.substring 0 n s +:+ rest)). by f_equal.
Qed.

Lemma shownTitle_short (title : string) :
  String.length title <= 60 -> shownTitle title = title.
Proof.
  unfold shownTitle. intros Hl.
  destruct (Nat.ltb_spec 60 (String.length title)); [lia|done].
Qed.

Lemma shownTitle_long (title : string) :
  60 < String.length title ->
  exists kept rest,
    title = kept +:+ rest /\ String.length kept = 57 /\
    shownTitle title = kept +:+ "..." /\
    String.length (shownTitle title) = 60.
Proof.
  unfold shownTitle. intros Hl.
  destruct (Nat.ltb_spec 60 (String.length title)); [|lia].
  destruct (substring_prefix 57 title) as (rest & Ht & Hk); [lia|].
  exists (String.substring 0 57 title), rest.
  split_and!; [done..|]. by rewrite length_append, Hk.
Qed.



Section Presenter.

Hypothesis sort_Slice_rearranges : rearranges sort_Slice.


End Presenter.

(** ** The priority buckets *)

(** C4. Each of the five bucket counters is the number of items whose
    priority is the value of the bucket; the total counts every item, so it
    exceeds the sum of the buckets by the number of items with a priority
    outside 0..4, and with distinct source names the entry of a source in
    [by_source] counts all its items; the buckets can add up to less than
    the total. *)
Theorem buckets_count_priorities_0_to_4 :
  (forall sources : list BlockedSource,
     let s := summarize sources in
     let items := allIssues sources in
     P0Count s = countPriorityIs 0 items /\
     P1Count s = countPriorityIs 1 items /\
     P2Count s = countPriorityIs 2 items /\
     P3Count s = countPriorityIs 3 items /\
     P4Count s = countPriorityIs 4 items /\
     Total s = length items /\
     Total s = P0Count s + P1Count s + P2Count s + P3Count s + P4Count s
               + countUnbucketed items /\
     (NoDup (map Name sources) ->
      forall src, In src sources ->
        BySource s !! Name src = Some (length (Issues src)))) /\
  (exists sources : list BlockedSource,
     let s := summarize sources in
     P0Count s + P1Count s + P2Count s + P3Count s + P4Count s < Total s).
Proof.
  split.
  - intros sources s items. subst s items.
    destruct (summarize_fields sources) as (-> & -> & -> & -> & -> & -> & ->).
    split_and!; try done.
    + apply bucket_partition.
    + intros Hnd src Hs. by apply bySourceOf_lookup.
  - exists [mkSource "town" [mkIssue "hq-1" "stalled" 7 []] ""].
    vm_compute. lia.
Qed.

(** ** Further properties of the command *)

Lemma append_inj_l (s a b : string) : s +:+ a = s +:+ b -> a = b.
Proof.
  induction s as [|c s IH]; [done|].
  intros H. change (String c (s +:+ a) = String c (s +:+ b)) in H.
  injection H as H. by apply IH.
Qed.

(** X1. In human-readable mode the command prints the single line
    No blocked work across town. exactly when no source of the report has an
    item; sources whose query failed are then not mentioned. *)
Theorem nothing_blocked_message
    (f : Flags) (picks : list nat) (r : BlockedResult) :
  report (runBlocked f picks) = Some r -> blockedJSON f = false ->
  ((forall s, In s (Sources r) -> Issues s = []) <->
   stdout (runBlocked f picks) = ["No blocked work across town." +:+ newline]).
Proof.
  intros Hr Hj.
  assert (stdout (runBlocked f picks) = printBlockedHuman r) as ->.
  { destruct (runBlocked_report f picks r Hr)
      as (townRoot & rigs0 & rigs & Hfind & Hrigs & Hsel & _ & _ & ->).
    unfold runBlocked. rewrite Hfind, Hrigs, Hsel. simpl. by rewrite Hj. }
  unfold printBlockedHuman. rewrite (report_summary f picks r Hr).
  destruct (summarize_fields (Sources r)) as (-> & _).
  rewrite length_allIssues.
  assert ((forall s, In s (Sources r) -> Issues s = []) <->
          sum_list (map (fun s => length (Issues s)) (Sources r)) = 0) as ->.
  { induction (Sources r) as [|s l IH]; simpl; [done|]. split.
    - intros Hall. rewrite (Hall s) by by left. simpl.
      apply IH. intros s' Hs'. apply Hall. by right.
    - intros Hsum s' [<-|Hs'].
      + destruct (Issues s); [done|simpl in Hsum; lia].
      + apply IH; [lia|done]. }
  destruct (Nat.eqb_spec (sum_list (map (fun s => length (Issues s)) (Sources r))) 0)
    as [Hz|Hnz]; [done|].
  split; [done|]. intros Hout. apply (f_equal length) in Hout.
  simpl in Hout. rewrite length_app in Hout. simpl in Hout. lia.
Qed.


Lemma firstNamed_first (name : string) (pre post : list rig.Rig) (rg : rig.Rig) :
  rig.Name rg = name ->
  (forall x, In x pre -> rig.Name x <> name) ->
  firstNamed name (pre ++ rg :: post) = [rg].
Proof.
  intros Hn. induction pre as [|p pre IH]; intros Hpre; simpl.
  - by destruct (String.eqb_spec (rig.Name rg) name).
  - destruct (String.eqb_spec (rig.Name p) name) as [He|_].
    + destruct (Hpre p); [by left|done].
    + apply IH. intros x Hx. apply Hpre. by right.
Qed.

(** X3. With a rig filter, the rig selected is the first discovered rig of
    that name, whatever follows it in the list, also further rigs of the
    same name; without a filter every discovered rig is selected. *)
Theorem first_matching_rig_is_selected
    (f : Flags) (pre post : list rig.Rig) (rg : rig.Rig) :
  (blockedRig f = "" -> selectRigs f (pre ++ rg :: post) = Ok (pre ++ rg :: post)) /\
  (blockedRig f <> "" -> rig.Name rg = blockedRig f ->
   (forall x, In x pre -> rig.Name x <> blockedRig f) ->
   selectRigs f (pre ++ rg :: post) = Ok [rg]).
Proof.
  unfold selectRigs. split.
  - intros ->. done.
  - intros Hf Hn Hpre.
    destruct (String.eqb_spec (blockedRig f) "") as [|_]; [done|]. simpl.
    by rewrite (firstNamed_first _ pre post rg Hn Hpre).
Qed.

(** X4. The comparator of the source sort orders two sources both ways
    exactly when both are named town; in particular a source named town
    sorts before itself. *)
Theorem lessSource_both_ways_iff_both_town (a b : BlockedSource) :
  (lessSource a b = true /\ lessSource b a = true) <->
  (Name a = "town" /\ Name b = "town").
Proof.
  split.
  - intros [Hab Hba].
    destruct (decide (Name a = "town")) as [Ha|Ha];
      destruct (decide (Name b = "town")) as [Hb|Hb]; [done|..]; exfalso.
    + rewrite (lessSource_other b a Hb) in Hba.
      by destruct (String.eqb_spec (Name a) "town").
    + rewrite (lessSource_other a b Ha) in Hab.
      by destruct (String.eqb_spec (Name b) "town").
    + rewrite (lessSource_other a b Ha) in Hab.
      rewrite (lessSource_other b a Hb) in Hba.
      destruct (String.eqb_spec (Name a) "town"); [done|].
      destruct (String.eqb_spec (Name b) "town"); [done|].
      by rewrite (ltb_asym _ _ Hab) in Hba.
  - intros [Ha Hb]. by rewrite !lessSource_town.
Qed.

(** X5. The title column never has more than 60 bytes, it is the title
    itself exactly when the title has at most 60 bytes, and shortening a
    shortened title changes nothing. *)
Theorem shownTitle_bounded (title : string) :
  String.length (shownTitle title) <= 60 /\
  (shownTitle title = title <-> String.length title <= 60) /\
  shownTitle (shownTitle title) = shownTitle title.
Proof.
  destruct (Nat.le_gt_cases (String.length title) 60) as [Hs|Hl].
  - rewrite !(shownTitle_short title Hs). split_and!; [done| |done].
    split; done.
  - destruct (shownTitle_long title Hl) as (kept & rest & _ & _ & _ & H60).
    split_and!; [lia| |apply shownTitle_short; lia].
    split; [|lia]. intros He. rewrite He in H60. lia.
Qed.

Lemma filterWispsByID_app (l1 l2 : list Issue) :
  filterWispsByID (l1 ++ l2) = filterWispsByID l1 ++ filterWispsByID l2.
Proof. rewrite !filterWispsByID_filter. apply List.filter_app. Qed.

(** X6. The substring filter works issue by issue: the filter of a
    concatenation is the concatenation of the filters, the output is never
    longer than the input, and the filter returns its input unchanged
    exactly when no ID in it contains the marker. *)
Theorem filterWispsByID_distributes (l1 l2 : list Issue) :
  filterWispsByID (l1 ++ l2) = filterWispsByID l1 ++ filterWispsByID l2 /\
  length (filterWispsByID l1) <= length l1 /\
  (filterWispsByID l1 = l1 <->
   forall x, In x l1 -> ~ exists pre post, ID x = pre +:+ "-wisp-" +:+ post).
Proof.
  split; [apply filterWispsByID_app|].
  rewrite filterWispsByID_filter.
  assert (length (List.filter keepsID l1) <= length l1) as Hlen.
  { induction l1 as [|i l IH]; simpl; [done|]. destruct (keepsID i); simpl; lia. }
  split; [done|]. clear Hlen l2.
  induction l1 as [|i l IH]; simpl; [done|].
  destruct (keepsID i) eqn:Hk.
  - split.
    + intros He. injection He as He. intros x [<-|Hx]; [by apply keepsID_spec|].
      by apply IH.
    + intros Hall. f_equal. apply IH. intros x Hx. apply Hall. by right.
  - split.
    + intros He. exfalso.
      assert (length (List.filter keepsID l) <= length l) as Hlen.
      { clear. induction l as [|j l IH]; simpl; [done|].
        destruct (keepsID j); simpl; lia. }
      rewrite He in Hlen. simpl in Hlen. lia.
    + intros Hall. exfalso.
      assert (keepsID i = true) as Hk'; [|congruence].
      apply keepsID_spec, Hall. by left.
Qed.

Lemma countPriorityIs_perm (k : Z) (l l' : list Issue) :
  l ≡ₚ l' -> countPriorityIs k l = countPriorityIs k l'.
Proof.
  unfold countPriorityIs.
  induction 1 as [|x l l' _ IH|x y l|l l' l'' _ IH1 _ IH2]; simpl.
  - done.
  - destruct (_ =? _)%Z; simpl; lia.
  - destruct (Priority y =? k)%Z; destruct (Priority x =? k)%Z; simpl; lia.
  - lia.
Qed.

(** X7. The counters of the summary depend only on which items the
    sources hold, not on the order of the sources or of their items: two
    lists of sources with the same items up to rearrangement have the same
    total and the same five bucket counts. *)
Theorem summary_counters_ignore_order (sources sources' : list BlockedSource) :
  allIssues sources ≡ₚ allIssues sources' ->
  Total (summarize sources) = Total (summarize sources') /\
  P0Count (summarize sources) = P0Count (summarize sources') /\
  P1Count (summarize sources) = P1Count (summarize sources') /\
  P2Count (summarize sources) = P2Count (summarize sources') /\
  P3Count (summarize sources) = P3Count (summarize sources') /\
  P4Count (summarize sources) = P4Count (summarize sources').
Proof.
  intros Hp.
  destruct (summarize_fields sources) as (-> & _ & -> & -> & -> & -> & ->).
  destruct (summarize_fields sources') as (-> & _ & -> & -> & -> & -> & ->).
  rewrite !(countPriorityIs_perm _ _ _ Hp). split_and!; try done.
  by apply Permutation_length.
Qed.

Lemma sum_list_perm (l l' : list nat) : l ≡ₚ l' -> sum_list l = sum_list l'.
Proof. induction 1; simpl; lia. Qed.

Lemma bySourceOf_sum (sources : list BlockedSource) (m : gmap string nat) :
  NoDup (map Name sources) ->
  (forall s, In s sources -> m !! Name s = None) ->
  sum_list (map snd (map_to_list (bySourceOf sources m)))
  = sum_list (map snd (map_to_list m))
    + sum_list (map (fun s => length (Issues s)) sources).
Proof.
  revert m; induction sources as [|s sources IH]; intros m Hnd Hm.
  { simpl. by rewrite Nat.add_0_r. }
  simpl. simpl in Hnd. apply NoDup_cons in Hnd as [Hs Hnd].
  rewrite IH; [|done|].
  - rewrite (sum_list_perm _ _
      (fmap_Permutation snd _ _
         (map_to_list_insert m (Name s) (length (Issues s)) (Hm s (or_introl eq_refl))))).
    simpl.
    change (list_fmap (string * nat)%type nat snd (map_to_list m))
      with (map snd (map_to_list m)).
    lia.
  - intros s' Hs'. rewrite lookup_insert_ne.
    + apply Hm. by right.
    + intros He. apply Hs. rewrite He. apply list_elem_of_In, in_map, Hs'.
Qed.

(** X8. When the sources have distinct names the entries of [by_source]
    add up to the total. *)
Theorem by_source_adds_up_to_total (sources : list BlockedSource) :
  NoDup (map Name sources) ->
  sum_list (map snd (map_to_list (BySource (summarize sources))))
  = Total (summarize sources).
Proof.
  intros Hnd.
  destruct (summarize_fields sources) as (-> & -> & _).
  rewrite bySourceOf_sum, map_to_list_empty, length_allIssues; [done..|].
  intros s _. apply lookup_empty.
Qed.

Lemma bucketPart_nil (count : nat) (label : string) :
  bucketPart count label = [] <-> count = 0.
Proof. unfold bucketPart. destruct count; simpl; split; done. Qed.

(** X9. The totals line names the priority buckets in parentheses unless
    all five bucket counts are zero; it then reads Total: N items blocked
    and nothing more, also when N is not zero. *)
Theorem totals_line_without_buckets (s : BlockedSummary) :
  totalsLine s
    = "Total: " +:+ fmt_d (Z.of_nat (Total s)) +:+ " items blocked" +:+ newline
  <->
  P0Count s = 0 /\ P1Count s = 0 /\ P2Count s = 0 /\ P3Count s = 0 /\ P4Count s = 0.
Proof.
  unfold totalsLine.
  set (parts := bucketPart (P0Count s) "P0" ++ bucketPart (P1Count s) "P1"
                ++ bucketPart (P2Count s) "P2" ++ bucketPart (P3Count s) "P3"
                ++ bucketPart (P4Count s) "P4").
  assert (parts = [] <->
          P0Count s = 0 /\ P1Count s = 0 /\ P2Count s = 0 /\
          P3Count s = 0 /\ P4Count s = 0) as <-.
  { unfold parts. rewrite !app_nil, !bucketPart_nil. done. }
  destruct parts as [|p parts]; simpl.
  - done.
  - split; [|done]. intros H.
    apply append_inj_l, append_inj_l in H.
    apply (f_equal (String.get 14)) in H. vm_compute in H. discriminate.
Qed.

Lemma sourceLines_length (src : BlockedSource) :
  length (sourceLines src) = sourceLineCount src.
Proof.
  unfold sourceLines, sourceLineCount.
  destruct (negb _); [done|]. destruct (_ =? 0); [done|].
  simpl. rewrite length_app, length_map. simpl. lia.
Qed.

Lemma sourceLines_items (src : BlockedSource) :
  (Error src <> "" -> Issues src = []) ->
  map itemLine (Issues src) `sublist_of` sourceLines src.
Proof.
  intros He. unfold sourceLines.
  destruct (String.eqb_spec (Error src) "") as [_|Hne]; simpl.
  - destruct (Nat.eqb_spec (length (Issues src)) 0) as [Hz|_].
    + by destruct (Issues src).
    + apply sublist_cons, sublist_inserts_r. done.
  - rewrite (He Hne). apply sublist_nil_l.
Qed.

Lemma errorLine_printed (result : BlockedResult) (src : BlockedSource) :
  Total (Summary result) <> 0 -> In src (Sources result) -> Error src <> "" ->
  In (Render style.Dim (Name src +:+ "/") +:+ " "
        +:+ Render style.Warning ("(error: " +:+ Error src +:+ ")") +:+ newline)
     (printBlockedHuman result).
Proof.
  intros Ht Hs He. unfold printBlockedHuman.
  destruct (Nat.eqb_spec (Total (Summary result)) 0); [done|].
  apply in_or_app. right. apply in_or_app. left.
  apply in_concat. exists (sourceLines src). split; [by apply in_map|].
  unfold sourceLines.
  destruct (String.eqb_spec (Error src) ""); [done|]. by left.
Qed.

Lemma stdout_human (f : Flags) (picks : list nat) (r : BlockedResult) :
  report (runBlocked f picks) = Some r -> blockedJSON f = false ->
  stdout (runBlocked f picks) = printBlockedHuman r.
Proof.
  intros Hr Hj.
  destruct (runBlocked_report f picks r Hr)
    as (townRoot & rigs0 & rigs & Hfind & Hrigs & Hsel & _ & _ & ->).
  unfold runBlocked. rewrite Hfind, Hrigs, Hsel. simpl. by rewrite Hj.
Qed.

Lemma report_total_nonzero (f : Flags) (picks : list nat) (r : BlockedResult) :
  report (runBlocked f picks) = Some r ->
  allIssues (Sources r) <> [] -> Total (Summary r) <> 0.
Proof.
  intros Hr Hne. rewrite (report_summary f picks r Hr).
  destruct (summarize_fields (Sources r)) as (-> & _).
  by destruct (allIssues (Sources r)).
Qed.

Section Contained.

Hypothesis sort_Slice_rearranges : rearranges sort_Slice.



(** X11. No item of a report has an ID that contains the marker -wisp-,
    whatever the two filters that run before the substring filter do. *)
Theorem report_has_no_wisp_ids
    (f : Flags) (picks : list nat) (r : BlockedResult) (s : BlockedSource) (x : Issue) :
  report (runBlocked f picks) = Some r -> In s (Sources r) -> In x (Issues s) ->
  ~ exists pre post, ID x = pre +:+ "-wisp-" +:+ post.
Proof.
  intros Hr Hs Hx.
  destruct (report_source_origin sort_Slice_rearranges f picks r s Hr Hs) as (t & _ & ->).
  simpl in Hx. apply list_elem_of_In in Hx.
  rewrite (sort_Slice_rearranges Issue lessIssue _) in Hx.
  apply list_elem_of_In in Hx.
  assert (forall name path, In x (Issues (querySource name path)) ->
            keepsID x = true) as Hq.
  { intros name path. unfold querySource, filterPipeline.
    destruct (Blocked w path); simpl; [|done].
    rewrite filterWispsByID_filter, filter_In. tauto. }
  apply keepsID_spec. destruct t; by eapply Hq.
Qed.

(** X12. In human-readable mode, when a source of the report has an error
    and some other source has an item, the source is reported on a line of
    its own: its name followed by a slash, and the error text in
    parentheses. *)
Theorem failed_source_is_reported
    (f : Flags) (picks : list nat) (r : BlockedResult) (src : BlockedSource) :
  report (runBlocked f picks) = Some r -> blockedJSON f = false ->
  allIssues (Sources r) <> [] ->
  In src (Sources r) -> Error src <> "" ->
  In (Render style.Dim (Name src +:+ "/") +:+ " "
        +:+ Render style.Warning ("(error: " +:+ Error src +:+ ")") +:+ newline)
     (stdout (runBlocked f picks)).
Proof.
  intros Hr Hj Hne Hs He. rewrite (stdout_human f picks r Hr Hj).
  apply errorLine_printed; [|done..]. by apply (report_total_nonzero f picks).
Qed.

(** X13. In human-readable mode, when the report has an item, the lines of
    all its items are printed in the order of the report, and the number of
    strings printed is two, for the heading and the totals line, plus one for
    every source with an error and, for every other source that has items,
    two plus the number of its items. *)
Theorem every_item_is_printed
    (f : Flags) (picks : list nat) (r : BlockedResult) :
  report (runBlocked f picks) = Some r -> blockedJSON f = false ->
  allIssues (Sources r) <> [] ->
  map itemLine (allIssues (Sources r)) `sublist_of` stdout (runBlocked f picks) /\
  length (stdout (runBlocked f picks))
    = 2 + sum_list (map sourceLineCount (Sources r)).
Proof.
  intros Hr Hj Hne. rewrite (stdout_human f picks r Hr Hj).
  pose proof (report_total_nonzero f picks r Hr Hne) as Ht.
  unfold printBlockedHuman.
  destruct (Nat.eqb_spec (Total (Summary r)) 0); [done|].
  assert (forall s, In s (Sources r) -> Error s <> "" -> Issues s = []) as Herr.
  { intros s Hs He.
    apply (report_error_no_issues sort_Slice_rearranges f picks r s Hr Hs He). }
  clear Hr Hne Ht. split.
  - apply sublist_cons, sublist_inserts_r. unfold allIssues.
    induction (Sources r) as [|s l IH]; simpl; [done|].
    rewrite map_app. apply sublist_app.
    + apply sourceLines_items. apply Herr. by left.
    + apply IH. intros s' Hs'. apply Herr. by right.
  - simpl. rewrite length_app. simpl.
    assert (length (concat (map sourceLines (Sources r)))
            = sum_list (map sourceLineCount (Sources r))) as ->; [|lia].
    induction (Sources r) as [|s l IH]; simpl; [done|].
    rewrite length_app, sourceLines_length, IH; [done|].
    intros s' Hs'. apply Herr. by right.
Qed.

End Contained.

End Command.

(** ** The library's algorithm rearranges

    Every step of the transcribed algorithm is a swap of two entries. *)

Section GoSort.

Context {A : Type} (less : A -> A -> bool).

Lemma Swap_perm (data : list A) (i j : nat) : sort.Swap data i j ≡ₚ data.
Proof.
  unfold sort.Swap.
  destruct (data !! i) as [x|] eqn:Hi; [|done].
  destruct (data !! j) as [y|] eqn:Hj; [|done].
  by apply Permutation_insert_swap.
Qed.

Lemma insertDown_perm (a j : nat) (data : list A) :
  sort.insertDown less a j data ≡ₚ data.
Proof.
  revert data; induction j as [|j IH]; intros data; simpl; [done|].
  destruct (_ && _); [|done]. by rewrite IH, Swap_perm.
Qed.

Lemma insertionLoop_perm (a i n : nat) (data : list A) :
  sort.insertionLoop less a i n data ≡ₚ data.
Proof.
  revert i data; induction n as [|n IH]; intros i data; simpl; [done|].
  by rewrite IH, insertDown_perm.
Qed.

Lemma insertionSort_func_perm (data : list A) (a b : nat) :
  sort.insertionSort_func less data a b ≡ₚ data.
Proof. apply insertionLoop_perm. Qed.

Lemma siftDown_func_perm (fuel : nat) (data : list A) (root hi first : nat) :
  sort.siftDown_func less fuel data root hi first ≡ₚ data.
Proof.
  revert data root; induction fuel as [|fuel IH]; intros data root; simpl; [done|].
  destruct (hi <=? _); [done|]. destruct (negb _); [done|].
  by rewrite IH, Swap_perm.
Qed.

Lemma buildHeap_perm (n : nat) (data : list A) (hi first : nat) :
  sort.buildHeap less n data hi first ≡ₚ data.
Proof.
  revert data; induction n as [|n IH]; intros data; simpl; [done|].
  by rewrite IH, siftDown_func_perm.
Qed.

Lemma popHeap_perm (n : nat) (data : list A) (first : nat) :
  sort.popHeap less n data first ≡ₚ data.
Proof.
  revert data; induction n as [|n IH]; intros data; simpl; [done|].
  by rewrite IH, siftDown_func_perm, Swap_perm.
Qed.

Lemma heapSort_func_perm (data : list A) (a b : nat) :
  sort.heapSort_func less data a b ≡ₚ data.
Proof. unfold sort.heapSort_func. by rewrite popHeap_perm, buildHeap_perm. Qed.

Lemma partitionLoop_perm (fuel : nat) (data : list A) (a i j : nat) :
  (sort.partitionLoop less fuel data a i j).1 ≡ₚ data.
Proof.
  revert data i j; induction fuel as [|fuel IH]; intros data i j; simpl; [done|].
  destruct (_ <? _); [done|]. by rewrite IH, Swap_perm.
Qed.

Lemma partition_func_perm (data : list A) (a b pivot : nat) :
  (sort.partition_func less data a b pivot).1.1 ≡ₚ data.
Proof.
  unfold sort.partition_func. destruct (_ <? _); simpl.
  - by rewrite !Swap_perm.
  - match goal with
    | |- context [sort.partitionLoop less ?f ?d ?a' ?i ?j] =>
        pose proof (partitionLoop_perm f d a' i j) as Hloop;
        destruct (sort.partitionLoop less f d a' i j) as [data' j']
    end.
    simpl in *. by rewrite Swap_perm, Hloop, !Swap_perm.
Qed.

Lemma partitionEqualLoop_perm (fuel : nat) (data : list A) (a i j : nat) :
  (sort.partitionEqualLoop less fuel data a i j).1 ≡ₚ data.
Proof.
  revert data i j; induction fuel as [|fuel IH]; intros data i j; simpl; [done|].
  destruct (_ <? _); [done|]. by rewrite IH, Swap_perm.
Qed.

Lemma partitionEqual_func_perm (data : list A) (a b pivot : nat) :
  (sort.partitionEqual_func less data a b pivot).1 ≡ₚ data.
Proof.
  unfold sort.partitionEqual_func. by rewrite partitionEqualLoop_perm, Swap_perm.
Qed.

Lemma shiftLeft_perm (j : nat) (data : list A) : sort.shiftLeft less j data ≡ₚ data.
Proof.
  revert data; induction j as [|j IH]; intros data; simpl; [done|].
  destruct (negb _); [done|]. by rewrite IH, Swap_perm.
Qed.

Lemma shiftRight_perm (fuel j b : nat) (data : list A) :
  sort.shiftRight less fuel j b data ≡ₚ data.
Proof.
  revert j data; induction fuel as [|fuel IH]; intros j data; simpl; [done|].
  destruct (b <=? j); [done|]. destruct (negb _); [done|].
  by rewrite IH, Swap_perm.
Qed.

Lemma partialInsertionLoop_perm (steps : nat) (data : list A) (a b i : nat) :
  (sort.partialInsertionLoop less steps data a b i).1 ≡ₚ data.
Proof.
  revert data i; induction steps as [|steps IH]; intros data i;
    cbn [sort.partialInsertionLoop]; [done|].
  repeat match goal with
         | |- context [if ?c then _ else _] => destruct c
         end;
    cbn [fst]; rewrite ?IH, ?shiftRight_perm, ?shiftLeft_perm, ?Swap_perm; done.
Qed.

Lemma breakLoop_perm (n i : nat) (random modulus : N) (data : list A) (a idx len : nat) :
  sort.breakLoop n i random modulus data a idx len ≡ₚ data.
Proof.
  revert i random data; induction n as [|n IH]; intros i random data; simpl; [done|].
  by rewrite IH, Swap_perm.
Qed.

Lemma breakPatterns_func_perm (data : list A) (a b : nat) :
  sort.breakPatterns_func data a b ≡ₚ data.
Proof.
  unfold sort.breakPatterns_func. destruct (8 <=? _); [apply breakLoop_perm|done].
Qed.

Lemma reverseLoop_perm (fuel : nat) (data : list A) (i j : nat) :
  sort.reverseLoop fuel data i j ≡ₚ data.
Proof.
  revert data i j; induction fuel as [|fuel IH]; intros data i j; simpl; [done|].
  destruct (i <? j); [|done]. by rewrite IH, Swap_perm.
Qed.

Lemma pdqsort_func_perm (fuel : nat) (data : list A) (a b limit : nat)
    (wasBalanced wasPartitioned : bool) :
  sort.pdqsort_func less fuel data a b limit wasBalanced wasPartitioned ≡ₚ data.
Proof.
  revert data a b limit wasBalanced wasPartitioned.
  induction fuel as [|fuel IH]; intros data a b limit wb wp; simpl; [done|].
  destruct (_ <=? 12); [apply insertionSort_func_perm|].
  destruct (limit =? 0); [apply heapSort_func_perm|].
  set (d1 := if negb wb then _ else _).
  assert (d1.1 ≡ₚ data) as H1.
  { unfold d1. destruct (negb wb); [apply breakPatterns_func_perm|done]. }
  destruct d1 as [data1 limit1]. simpl in H1.
  destruct (sort.choosePivot_func less data1 a b) as [pivot hint].
  set (d2 := if sort.isDecreasing hint then _ else _).
  assert (d2.1.1 ≡ₚ data) as H2.
  { unfold d2. destruct (sort.isDecreasing hint); simpl; [|done].
    unfold sort.reverseRange_func. by rewrite reverseLoop_perm. }
  destruct d2 as [[data2 pivot2] hint2]. simpl in H2.
  set (d3 := if _ && _ && _ then _ else _).
  assert (d3.1 ≡ₚ data) as H3.
  { unfold d3. destruct (_ && _ && _); simpl; [|done].
    unfold sort.partialInsertionSort_func. by rewrite partialInsertionLoop_perm. }
  destruct d3 as [data3 sorted]. simpl in H3.
  destruct sorted; [done|].
  destruct (_ && _).
  - pose proof (partitionEqual_func_perm data3 a b pivot2) as H4.
    destruct (sort.partitionEqual_func less data3 a b pivot2) as [data4 mid].
    simpl in H4. by rewrite IH, H4.
  - pose proof (partition_func_perm data3 a b pivot2) as H4.
    destruct (sort.partition_func less data3 a b pivot2) as [[data4 mid] ap].
    simpl in H4. destruct (_ <? _); by rewrite !IH, H4.
Qed.

End GoSort.

Lemma Slice_rearranges : rearranges sort.Slice.
Proof. intros A less l. apply pdqsort_func_perm. Qed.

(** ** A rig that is itself named town *)

Lemma Slice_two_second_town (a b : BlockedSource) :
  Name b = "town" -> sort.Slice BlockedSource lessSource [a; b] = [b; a].
Proof.
  intros Hb. unfold sort.Slice. simpl.
  unfold sort.insertionSort_func. simpl.
  unfold sort.Less. simpl. by rewrite (lessSource_town b a Hb).
Qed.

(** X14. When the only discovered rig is itself named town and no rig
    filter is given, the library's sort of the two sources named town
    exchanges them: the report lists the source that completed last first,
    so the order of its sources follows the schedule. *)
Theorem rig_named_town_order_follows_completion
    {RigEntry : Type}
    (filterFormulaScaffolds filterWisps : list Issue -> gset string -> list Issue)
    (Render : style.Style -> string -> string) (json_Encode : BlockedResult -> string)
    (w : World RigEntry) (f : Flags) (rg : rig.Rig) (townRoot : string) :
  FindFromCwdOrError w = Ok townRoot ->
  DiscoverRigs w townRoot
    (match LoadRigsConfig w (MayorRigsPath w townRoot) with
     | Ok c => c
     | Err _ => config.mkRigsConfig ∅
     end) = Ok [rg] ->
  rig.Name rg = "town" -> blockedRig f = "" ->
  let run := runBlocked sort.Slice filterFormulaScaffolds filterWisps Render json_Encode w f in
  let townSource :=
    sortIssues sort.Slice (runTask filterFormulaScaffolds filterWisps w townRoot TownTask) in
  let rigSource :=
    sortIssues sort.Slice (runTask filterFormulaScaffolds filterWisps w townRoot (RigTask rg)) in
  (exists r, report (run []) = Some r /\ Sources r = [rigSource; townSource]) /\
  (exists r, report (run [1]) = Some r /\ Sources r = [townSource; rigSource]).
Proof.
  intros Hfind Hrigs Hname Hf run townSource rigSource.
  assert (selectRigs f [rg] = Ok [rg]) as Hsel.
  { unfold selectRigs. by rewrite Hf. }
  assert (launched f [rg] = [TownTask; RigTask rg]) as Hl.
  { unfold launched. by rewrite Hf. }
  split; eexists; (split; [unfold run, runBlocked;
                             rewrite Hfind, Hrigs, Hsel, Hl; reflexivity|]).
  - cbn [Sources aggregate completion_order map].
    rewrite Slice_two_second_town; [done|].
    unfold runTask, querySource. rewrite Hname. by destruct (Blocked w _).
  - cbn [Sources aggregate completion_order map length lookup delete
         Nat.modulo Nat.divmod fst snd Nat.sub list_lookup list_delete].
    rewrite Slice_two_second_town; [done|].
    unfold runTask, querySource. by destruct (Blocked w _).
Qed.

(** ** gt mq close *)

(** X15. [runMQClose] by itself ends with an index out of range exactly
    when it is given fewer than two arguments; behind the argument check of
    the command it never does: every argument list makes the command return,
    and a list of other than two arguments makes it return the error of the
    check without printing and without calling the refinery. *)
Theorem mq_close_checks_arguments
    {Manager : Type} (Render : style.Style -> string -> string)
    (w : mq.World Manager) (fl : mq.Flags) (args : list string) :
  (mq.runMQClose Render w fl args = mq.Panicked <-> length args < 2) /\
  (exists out e, mq.mqCloseCmd Render w fl args = mq.Returned out e) /\
  (length args <> 2 ->
   mq.mqCloseCmd Render w fl args
   = mq.Returned []
       (Some ("accepts 2 arg(s), received " +:+ fmt_d (Z.of_nat (length args))))).
Proof.
  assert (mq.runMQClose Render w fl args = mq.Panicked <-> length args < 2) as Hp.
  { unfold mq.runMQClose. destruct args as [|a [|b args]]; simpl.
    - split; [lia|done].
    - split; [lia|done].
    - destruct (mq.getRefineryManager w a); [|split; [done|lia]].
      destruct (mq.CloseMR w _ _ _ _); split; (done || lia). }
  split; [done|]. unfold mq.mqCloseCmd, mq.ExactArgs.
  destruct (Nat.eqb_spec (length args) 2) as [H2|Hn2].
  - split; [|done].
    destruct (mq.runMQClose Render w fl args) as [|out e] eqn:Hr.
    + pose proof (proj1 Hp eq_refl). lia.
    + by exists out, e.
  - split; [by eexists _, _|]. done.
Qed.

(** X16. [mq close] prints only after a successful close. If the refinery
    manager of the rig cannot be obtained its error is returned as it is, and
    if closing fails the error is returned behind the words closing MR; in
    both cases nothing is printed. After a successful close the command
    returns no error and prints four lines, and a fifth about the source
    issue exactly when the result names one. *)
Theorem mq_close_prints_after_success
    {Manager : Type} (Render : style.Style -> string -> string)
    (w : mq.World Manager) (fl : mq.Flags) (rigName mr : string) :
  (forall e, mq.getRefineryManager w rigName = Err e ->
     mq.mqCloseCmd Render w fl [rigName; mr] = mq.Returned [] (Some e)) /\
  (forall mgr e, mq.getRefineryManager w rigName = Ok mgr ->
     mq.CloseMR w mgr mr (mq.mqCloseReason fl) (mq.mqCloseCloseSource fl) = Err e ->
     mq.mqCloseCmd Render w fl [rigName; mr]
     = mq.Returned [] (Some ("closing MR: " +:+ e))) /\
  (forall mgr result, mq.getRefineryManager w rigName = Ok mgr ->
     mq.CloseMR w mgr mr (mq.mqCloseReason fl) (mq.mqCloseCloseSource fl) = Ok result ->
     exists out,
       mq.mqCloseCmd Render w fl [rigName; mr] = mq.Returned out None /\
       (mq.IssueID result = "" -> length out = 4) /\
       (mq.IssueID result <> "" ->
        length out = 5 /\
        last out
        = Some ("  Issue:  " +:+ mq.IssueID result +:+ " "
                  +:+ Render style.Dim
                        (if mq.mqCloseCloseSource fl then "(closed)" else "(not closed)")
                  +:+ newline))).
Proof.
  unfold mq.mqCloseCmd, mq.runMQClose. simpl. split_and!.
  - by intros e ->.
  - by intros mgr e -> ->.
  - intros mgr result -> ->. eexists. split; [done|].
    unfold mq.closedLines.
    destruct (String.eqb_spec (mq.IssueID result) "") as [He|Hne].
    + rewrite andb_false_r. simpl. split; [done|]. intros Hn. by destruct Hn.
    + rewrite andb_true_r. simpl. split; [done|]. intros _.
      by destruct (mq.mqCloseCloseSource fl).
Qed.

(** ** The examples, run *)

(** The command on the small town: with the library's sort, and with
    insertion sort. *)
Abbreviation exampleRun f picks :=
  (runBlocked sort.Slice keepAll dropMembers plainRender noJSON exampleWorld f picks).

Abbreviation insertionRun f picks :=
  (runBlocked insertionSort keepAll dropMembers plainRender noJSON exampleWorld f picks).

(** C1 on the small town: four items, none from the unreadable store. *)
Lemma total_counts_sources_without_error_example :
  exists r,
    report (exampleRun allSources [2; 0]) = Some r /\
    map Name (Sources r) = ["town"; "alpha"; "beta"] /\
    Total (Summary r) = 4 /\
    (Total (Summary r)
       = sum_list (map (fun s => length (Issues s))
                     (List.filter (fun s => String.eqb (Error s) "") (Sources r))) /\
     forall s, In s (Sources r) -> Error s <> "" -> length (Issues s) = 0).
Proof.
  eexists. split; [reflexivity|]. split; [reflexivity|]. split; [reflexivity|].
  apply (total_counts_sources_without_error sort.Slice keepAll dropMembers
           plainRender noJSON exampleWorld Slice_rearranges
           allSources [2; 0]).
  reflexivity.
Defined.



(** C3, as amended, on the town source: hq-2 (P0) comes before hq-7 (P2). *)
Lemma items_sorted_by_priority_example :
  exists r s,
    report (insertionRun allSources [0; 1]) = Some r /\
    In s (Sources r) /\
    map ID (Issues s) = ["hq-2"; "hq-7"] /\
    (StronglySorted (fun a b => (Priority a <= Priority b)%Z) (Issues s) /\
     exists t, In t (queried (insertionRun allSources [0; 1])) /\
               Name s = Name (runTask keepAll dropMembers exampleWorld (TownRoot r) t) /\
               Issues s ≡ₚ Issues (runTask keepAll dropMembers exampleWorld (TownRoot r) t)).
Proof.
  eexists. eexists. split; [reflexivity|].
  split; [left; reflexivity|]. split; [reflexivity|].
  apply (items_sorted_by_priority insertionSort keepAll dropMembers
           plainRender noJSON exampleWorld
           insertionSort_rearranges insertionSort_orders allSources [0; 1]).
  - reflexivity.
  - left; reflexivity.
Defined.

(** C6 on the small town: no rig gamma; rig alpha alone. *)
Lemma rig_filter_selects_or_fails_example :
  (exampleRun onlyGamma [] = mkRun [] None [] (Some "rig not found: gamma") /\
   exitStatus (err (exampleRun onlyGamma [])) <> 0%Z) /\
  (selectRigs onlyAlpha [betaRig; alphaRig] = Ok [alphaRig] /\
   queried (exampleRun onlyAlpha []) = [RigTask alphaRig]).
Proof.
  split.
  - apply (rig_filter_selects_or_fails sort.Slice keepAll dropMembers
             plainRender noJSON exampleWorld onlyGamma [] "/gt" [betaRig; alphaRig]
             eq_refl eq_refl).
    + discriminate.
    + intros rg [<-|[<-|[]]]; discriminate.
  - apply (rig_filter_selects_or_fails sort.Slice keepAll dropMembers
             plainRender noJSON exampleWorld onlyAlpha [] "/gt" [betaRig; alphaRig]
             eq_refl eq_refl).
    + discriminate.
    + right; left; reflexivity.
    + reflexivity.
    + intros rg' [<-|[<-|[]]]; [discriminate | reflexivity].
Defined.

(** C7 on the small town with the filter on rig alpha. *)
Lemma town_queried_iff_no_rig_filter_example :
  exists r,
    report (exampleRun onlyAlpha [0]) = Some r /\
    map Name (Sources r) = ["alpha"] /\
    ((In TownTask (queried (exampleRun onlyAlpha [0])) <-> blockedRig onlyAlpha = "") /\
     Sources r ≡ₚ
       map (fun t => sortIssues sort.Slice
                       (runTask keepAll dropMembers exampleWorld (TownRoot r) t))
           (queried (exampleRun onlyAlpha [0])) /\
     (blockedRig onlyAlpha <> "" ->
      exists rg, queried (exampleRun onlyAlpha [0]) = [RigTask rg] /\
                 rig.Name rg = blockedRig onlyAlpha /\
                 Sources r = [sortIssues sort.Slice
                                (runTask keepAll dropMembers exampleWorld
                                   (TownRoot r) (RigTask rg))])).
Proof.
  eexists. split; [reflexivity|]. split; [reflexivity|].
  apply (town_queried_iff_no_rig_filter sort.Slice keepAll dropMembers
           plainRender noJSON exampleWorld Slice_rearranges
           onlyAlpha [0]).
  reflexivity.
Defined.


(** ** The item sort is not stable

    C3 as stated, with ties kept in the order of the filter pipeline, does
    not hold.  On the thirteen issues, [sort.Slice] as the library implements it moves
    issue [m] to the front and leaves the twelve issues of priority 1 in
    another order than it found them; and a routine that meets the whole
    contract may return them in any order, for instance reversed. *)
Lemma item_sort_not_stable :
  (exists r s,
     report (runBlocked sort.Slice keepAll dropMembers plainRender noJSON
               thirteenWorld allSources []) = Some r /\
     Sources r !! 0 = Some s /\
     Name s = "town" /\
     filterPipeline keepAll dropMembers thirteenWorld "/gt/.beads" thirteenIssues
       = thirteenIssues /\
     map ID (Issues s)
       = ["m"; "g"; "c"; "d"; "e"; "f"; "a"; "h"; "i"; "j"; "k"; "l"; "b"] /\
     StronglySorted (fun a b => (Priority a <= Priority b)%Z) (Issues s) /\
     ~ stable_on Priority thirteenIssues (Issues s)) /\
  (rearranges insertionSortRev /\ orders insertionSortRev /\
   exists r s,
     report (runBlocked insertionSortRev keepAll dropMembers plainRender noJSON
               thirteenWorld allSources []) = Some r /\
     Sources r !! 0 = Some s /\
     map ID (Issues s)
       = ["m"; "l"; "k"; "j"; "i"; "h"; "g"; "f"; "e"; "d"; "c"; "b"; "a"] /\
     ~ stable_on Priority thirteenIssues (Issues s)).
Proof.
  split.
  - eexists. eexists. split; [reflexivity|]. split; [reflexivity|].
    split; [reflexivity|]. split; [reflexivity|]. split; [reflexivity|].
    split.
    + apply (bool_decide_unpack _). vm_compute. reflexivity.
    + intros Hst. specialize (Hst 1%Z). vm_compute in Hst. discriminate.
  - split; [apply insertionSortRev_rearranges|].
    split; [apply insertionSortRev_orders|].
    eexists. eexists. split; [reflexivity|]. split; [reflexivity|].
    split; [reflexivity|].
    intros Hst. specialize (Hst 1%Z). vm_compute in Hst. discriminate.
Qed.

(** ** The further properties, on the examples *)

(** X1 when no store can be read: the three failures are not mentioned. *)
Lemma nothing_blocked_message_example :
  exists r,
    report (runBlocked sort.Slice keepAll dropMembers plainRender noJSON
              unreadableWorld allSources []) = Some r /\
    map Error (Sources r)
      = ["store unreachable"; "store unreachable"; "store unreachable"] /\
    ((forall s, In s (Sources r) -> Issues s = []) <->
     stdout (runBlocked sort.Slice keepAll dropMembers plainRender noJSON
               unreadableWorld allSources [])
     = ["No blocked work across town." +:+ newline]).
Proof.
  eexists. split; [reflexivity|]. split; [reflexivity|].
  apply (nothing_blocked_message sort.Slice keepAll dropMembers plainRender noJSON
           unreadableWorld allSources []); reflexivity.
Defined.

(** X7 on the town issues and their reversal. *)
Lemma summary_counters_ignore_order_example :
  let sources := [mkSource "town" townIssues ""] in
  let sources' := [mkSource "town" (rev townIssues) ""] in
  Total (summarize sources) = Total (summarize sources') /\
  P0Count (summarize sources) = P0Count (summarize sources') /\
  P1Count (summarize sources) = P1Count (summarize sources') /\
  P2Count (summarize sources) = P2Count (summarize sources') /\
  P3Count (summarize sources) = P3Count (summarize sources') /\
  P4Count (summarize sources) = P4Count (summarize sources').
Proof.
  apply summary_counters_ignore_order.
  unfold allIssues. cbn [map concat Issues]. rewrite !app_nil_r.
  apply Permutation_rev.
Defined.

(** X8 on three sources. *)
Lemma by_source_adds_up_to_total_example :
  let sources := [mkSource "town" townIssues ""; mkSource "alpha" alphaIssues "";
                  mkSource "beta" [] "store unreachable"] in
  sum_list (map snd (map_to_list (BySource (summarize sources)))) = 6 /\
  sum_list (map snd (map_to_list (BySource (summarize sources))))
  = Total (summarize sources).
Proof.
  split; [vm_compute; reflexivity|].
  apply by_source_adds_up_to_total.
  apply (bool_decide_unpack _). vm_compute. reflexivity.
Defined.


(** X11 on the town source: hq-wisp-3 was in the store and is not in the
    report. *)
Lemma report_has_no_wisp_ids_example :
  exists r s x,
    report (exampleRun allSources []) = Some r /\
    In s (Sources r) /\ In x (Issues s) /\
    In (mkIssue "hq-wisp-3" "patrol digest" 1 []) townIssues /\
    map ID (Issues s) = ["hq-2"; "hq-7"] /\
    ~ exists pre post, ID x = pre +:+ "-wisp-" +:+ post.
Proof.
  eexists. eexists. eexists. split; [reflexivity|].
  split; [left; reflexivity|]. split; [left; reflexivity|].
  split; [right; left; reflexivity|]. split; [reflexivity|].
  eapply (report_has_no_wisp_ids sort.Slice keepAll dropMembers plainRender
            noJSON exampleWorld Slice_rearranges allSources []).
  - reflexivity.
  - left; reflexivity.
  - left; reflexivity.
Defined.

(** X12 on rig beta. *)
Lemma failed_source_is_reported_example :
  In ("beta/ (error: store unreachable)" +:+ newline)
     (stdout (exampleRun allSources [])).
Proof.
  eapply (failed_source_is_reported sort.Slice keepAll dropMembers plainRender
            noJSON exampleWorld allSources [] _
            (mkSource "beta" [] "store unreachable")).
  - reflexivity.
  - reflexivity.
  - discriminate.
  - right; right; left; reflexivity.
  - discriminate.
Defined.

(** X13 on the small town: four items, eleven strings. *)
Lemma every_item_is_printed_example :
  exists r,
    report (exampleRun allSources []) = Some r /\
    length (stdout (exampleRun allSources [])) = 11 /\
    (map (itemLine plainRender) (allIssues (Sources r))
       `sublist_of` stdout (exampleRun allSources []) /\
     length (stdout (exampleRun allSources []))
       = 2 + sum_list (map sourceLineCount (Sources r))).
Proof.
  eexists. split; [reflexivity|]. split; [reflexivity|].
  apply (every_item_is_printed sort.Slice keepAll dropMembers plainRender
           noJSON exampleWorld Slice_rearranges allSources []).
  - reflexivity.
  - reflexivity.
  - discriminate.
Defined.

(** X14 on the town whose rig is named town. *)
Lemma rig_named_town_order_follows_completion_example :
  (exists r,
     report (runBlocked sort.Slice keepAll dropMembers plainRender noJSON
               townRigWorld allSources []) = Some r /\
     Sources r
     = [sortIssues sort.Slice
          (runTask keepAll dropMembers townRigWorld "/gt" (RigTask townRig));
        sortIssues sort.Slice
          (runTask keepAll dropMembers townRigWorld "/gt" TownTask)]) /\
  (exists r,
     report (runBlocked sort.Slice keepAll dropMembers plainRender noJSON
               townRigWorld allSources [1]) = Some r /\
     Sources r
     = [sortIssues sort.Slice
          (runTask keepAll dropMembers townRigWorld "/gt" TownTask);
        sortIssues sort.Slice
          (runTask keepAll dropMembers townRigWorld "/gt" (RigTask townRig))]).
Proof.
  apply (rig_named_town_order_follows_completion keepAll dropMembers plainRender
           noJSON townRigWorld allSources townRig "/gt"); reflexivity.
Defined.
